(** * WorkspaceFileResolver: module resolution and virtual-path mapping

    A shallow embedding of [src/WorkspaceFileResolver.cpp]: the dual path
    index built from a sourcemap, the translation between virtual and real
    module names, the require resolver and the [.luaurc] cascade.

    Conventions of the embedding.
    - A [std::filesystem::path] in the resolver is its generic string.
    - A [SourceNodePtr] (a shared pointer into the tree owned by
      [rootSourceNode]) is the node's address in that tree: the list of
      child indices leading to it from the root.  Two nodes with equal
      contents at different addresses are different nodes, as in the code.
    - What the file calls but does not define (the filesystem, the JSON
      reader, helpers of the utility headers) is a field of [Platform]. *)

From Stdlib Require Import String Ascii List Bool Arith Lia.
From stdpp Require Import base option list gmap strings fin_maps.
Import ListNotations.

Open Scope string_scope.
Set Warnings "-register-all".

(** ** Strings and lexical paths *)

(** [Luau::startsWith(str, prefix)]. *)
Definition startsWith (str prefix : string) : bool := String.prefix prefix str.

(** [str.substr(n)]: the characters of [str] from position [n] on. *)
Fixpoint substr (n : nat) (str : string) : string :=
  match n, str with
  | O, _ => str
  | S n', String _ rest => substr n' rest
  | S _, EmptyString => EmptyString
  end.

Definition string_empty (s : string) : bool :=
  match s with EmptyString => true | _ => false end.

Fixpoint last_char (s : string) : option Ascii.ascii :=
  match s with
  | EmptyString => None
  | String c EmptyString => Some c
  | String _ rest => last_char rest
  end.

Definition is_absolute (p : string) : bool :=
  match p with
  | String c _ => Ascii.eqb c "/"%char
  | EmptyString => false
  end.

(** [lhs / rhs] of [std::filesystem::path] on generic POSIX paths: an
    absolute right operand replaces the left one, otherwise the operands
    are joined, with a separator unless the left one is empty or already
    ends with one. *)
Definition path_join (lhs rhs : string) : string :=
  if is_absolute rhs then rhs
  else match last_char lhs with
       | None => rhs
       | Some c => if Ascii.eqb c "/"%char then lhs +:+ rhs
                   else lhs +:+ "/" +:+ rhs
       end.

(** The separator that [lhs / rhs] puts between its operands when [rhs]
    is relative: none after an empty path or a separator. *)
Definition separator (lhs : string) : string :=
  match last_char lhs with
  | None => ""
  | Some c => if Ascii.eqb c "/"%char then "" else "/"
  end.

(** ** The instance tree *)

(** A [SourceNodePtr]: the address of a node below the root. *)
Definition NodePtr := list nat.

(** Modelled from the spec: the declaration of [SourceNode] and its method
    [getScriptFilePath] are in the sourcemap header, which is not part of
    the sources; the data model of the specification gives a node a name,
    a class kind, an optional script file path, the virtual path assigned
    during indexing, its ordered children and a non-owning parent
    reference. *)
Inductive SourceNode : Type := MkSourceNode {
  name : string;
  className : string;
  getScriptFilePath : option string;
  virtualPath : string;
  parent : option NodePtr;
  children : list SourceNode
}.

(** The node a pointer designates in the tree rooted at [n]. *)
Fixpoint node_at (n : SourceNode) (ptr : NodePtr) : option SourceNode :=
  match ptr with
  | [] => Some n
  | i :: rest =>
      match nth_error (children n) i with
      | Some c => node_at c rest
      | None => None
      end
  end.

(** ** Collaborators *)

Inductive RequireModeConfig := RelativeToWorkspaceRoot | RelativeToFile.

(** The part of the client configuration read by the resolver.
    [directoryAliases] is an unordered map that the code iterates: it is
    given as the list of its entries in iteration order. *)
Record ClientConfiguration := {
  require_mode : RequireModeConfig;
  require_fileAliases : gmap string string;
  require_directoryAliases : list (string * string)
}.

Record Platform := {
  (** [std::filesystem::weakly_canonical(p, ec)]; [None] when [ec] is set. *)
  weakly_canonical : string -> option string;
  (** [std::filesystem::exists(p)], the overload without error code:
      [None] when it throws [filesystem_error]. *)
  fs_exists : string -> option bool;
  is_directory : string -> bool;
  replace_extension : string -> string -> string;
  has_extension : string -> bool;
  parent_path : string -> string;
  (** [Uri::parse(Uri::file(p).toString()).fsPath().generic_string()]. *)
  uri_normalise : string -> string;
  (** Helpers of the utility header. *)
  resolvePath : string -> string;
  isVirtualPath : string -> bool;
  getParentPath : string -> option string;
  getAncestorPath : string -> string -> option string;
  (** [json::parse] followed by [get<SourceNode>]; [None] when either throws. *)
  parseSourceMap : string -> option SourceNode;
  PluginInfo : Type;
  mutateWithPluginInfo : PluginInfo -> SourceNode -> SourceNode;
  (** Default value of the last parameter of [resolveDirectoryAlias]. *)
  includeExtension_default : bool
}.

(** ** The resolver state *)

Record WorkspaceFileResolver (P : Platform) := MkResolver {
  rootUri : string;
  client : option ClientConfiguration;
  pluginInfo : option (PluginInfo P);
  rootSourceNode : option SourceNode;
  realPathsToSourceNodes : gmap string NodePtr;
  virtualPathsToSourceNodes : gmap string NodePtr
}.

Arguments MkResolver {P} _ _ _ _ _ _.
Arguments rootUri {P} _.
Arguments client {P} _.
Arguments pluginInfo {P} _.
Arguments rootSourceNode {P} _.
Arguments realPathsToSourceNodes {P} _.
Arguments virtualPathsToSourceNodes {P} _.

Section Index.
Context {P : Platform}.

Definition set_realPaths (m : gmap string NodePtr) (r : WorkspaceFileResolver P) :=
  MkResolver (rootUri r) (client r) (pluginInfo r) (rootSourceNode r)
             m (virtualPathsToSourceNodes r).

Definition set_virtualPaths (m : gmap string NodePtr) (r : WorkspaceFileResolver P) :=
  MkResolver (rootUri r) (client r) (pluginInfo r) (rootSourceNode r)
             (realPathsToSourceNodes r) m.

Definition set_rootSourceNode (n : option SourceNode) (r : WorkspaceFileResolver P) :=
  MkResolver (rootUri r) (client r) (pluginInfo r) n
             (realPathsToSourceNodes r) (virtualPathsToSourceNodes r).

(** The key under which [writePathsToMap] files a script path. *)
Definition realPathKey (root realPath : string) : string :=
  match weakly_canonical P (path_join root realPath) with
  | Some canonicalName => canonicalName
  | None => realPath
  end.

(** The two index writes of [writePathsToMap] for one node. *)
Definition writeNode (ptr : NodePtr) (node : SourceNode) (base : string)
    (r : WorkspaceFileResolver P) : WorkspaceFileResolver P :=
  let r1 := set_virtualPaths (<[base := ptr]> (virtualPathsToSourceNodes r)) r in
  match getScriptFilePath node with
  | Some realPath =>
      set_realPaths (<[realPathKey (rootUri r1) realPath := ptr]>
                       (realPathsToSourceNodes r1)) r1
  | None => r1
  end.

(** [writePathsToMap(node, base)]: returns the node as it is after the
    call (virtual paths and parent references assigned) and the resolver
    with both indexes extended.  [ptr] is the address of [node].  The loop
    over the children is the inner fixpoint, [i] the index of the child;
    its assignment [child->parent = node] is the argument [par] of the
    recursive call, recorded in the node that the call returns. *)
Fixpoint writePathsToMap (ptr : NodePtr) (par : option NodePtr)
    (node : SourceNode) (base : string)
    (r : WorkspaceFileResolver P) : SourceNode * WorkspaceFileResolver P :=
  let r2 := writeNode ptr node base r in
  let '(cs, r3) :=
    (fix loop (i : nat) (cs : list SourceNode) (r : WorkspaceFileResolver P)
       : list SourceNode * WorkspaceFileResolver P :=
       match cs with
       | [] => ([], r)
       | child :: rest =>
           let '(child', r') :=
             writePathsToMap (ptr ++ [i])%list (Some ptr) child
                             (base +:+ "/" +:+ name child) r in
           let '(rest', r'') := loop (S i) rest r' in
           (child' :: rest', r'')
       end) 0 (children node) r2 in
  (MkSourceNode (name node) (className node) (getScriptFilePath node)
                base par cs, r3).

(** The loop of [writePathsToMap] over the children, from index [i] on. *)
Fixpoint writeChildren (ptr : NodePtr) (base : string) (i : nat)
    (cs : list SourceNode) (r : WorkspaceFileResolver P)
    : list SourceNode * WorkspaceFileResolver P :=
  match cs with
  | [] => ([], r)
  | child :: rest =>
      let '(child', r') :=
        writePathsToMap (ptr ++ [i])%list (Some ptr) child
                        (base +:+ "/" +:+ name child) r in
      let '(rest', r'') := writeChildren ptr base (S i) rest r' in
      (child' :: rest', r'')
  end.

(** [updateSourceMap(sourceMapContents)].  Both indexes are cleared before
    the contents are parsed; when parsing throws, the handler only logs. *)
Definition updateSourceMap (sourceMapContents : string)
    (r : WorkspaceFileResolver P) : WorkspaceFileResolver P :=
  let r := set_realPaths ∅ r in
  let r := set_virtualPaths ∅ r in
  match parseSourceMap P sourceMapContents with
  | None => r
  | Some j =>
      let root :=
        match pluginInfo r with
        | Some info =>
            if String.eqb (className j) "DataModel"
            then mutateWithPluginInfo P info j else j
        | None => j
        end in
      let base := if String.eqb (className root) "DataModel"
                  then "game" else "ProjectRoot" in
      let '(root', r') := writePathsToMap [] (parent root) root base (set_rootSourceNode (Some root) r) in
      set_rootSourceNode (Some root') r'
  end.

(** ** Index lookups *)

Definition getSourceNodeFromVirtualPath (r : WorkspaceFileResolver P)
    (name : string) : option NodePtr :=
  virtualPathsToSourceNodes r !! name.

Definition getSourceNodeFromRealPath (r : WorkspaceFileResolver P)
    (name : string) : option NodePtr :=
  let strName := match weakly_canonical P name with
                 | Some canonicalName => canonicalName
                 | None => name
                 end in
  realPathsToSourceNodes r !! strName.

(** Dereference of a node pointer held by an index. *)
Definition deref (r : WorkspaceFileResolver P) (ptr : NodePtr) : option SourceNode :=
  rootSourceNode r ≫= λ root, node_at root ptr.

End Index.

Arguments realPathKey : clear implicits.

(** ** Invariants of the index construction *)

Section IndexInvariant.

Context {P : Platform}.

(** One of the two indexes, the keys under which it files a node with a
    given virtual path and script file path, and the workspace root. *)
Variable index : WorkspaceFileResolver P -> gmap string NodePtr.
Variable keyOf : string -> option string -> string -> Prop.
Variable root : string.

Definition keyOfNode (n : SourceNode) (k : string) : Prop :=
  keyOf (virtualPath n) (getScriptFilePath n) k.

(** What a walk from [r] to [r'] below the pointer [ptr] guarantees,
    [below q n] saying that [n] is the node at [ptr ++ q]: an entry of the
    index is an old one or points to a node filed under its key, every
    node is filed under its keys, and no key is lost. *)
Definition walked (r r' : WorkspaceFileResolver P)
    (below : NodePtr -> SourceNode -> Prop) (ptr : NodePtr) : Prop :=
  rootUri r' = root /\
  (forall k q, index r' !! k = Some q ->
     index r !! k = Some q \/
     exists q' n, q = (ptr ++ q')%list /\ below q' n /\ keyOfNode n k) /\
  (forall q' n k, below q' n -> keyOfNode n k -> is_Some (index r' !! k)) /\
  (forall k, is_Some (index r !! k) -> is_Some (index r' !! k)).

End IndexInvariant.

(** The nodes below the children [cs], the first of which has index [i]. *)
Definition belowChildren (i : nat) (cs : list SourceNode)
    (q : NodePtr) (n : SourceNode) : Prop :=
  exists j c q', q = ((i + j) :: q')%list /\ nth_error cs j = Some c /\
                 node_at c q' = Some n.

(** The keys of the two indexes. *)
Definition virtualKey (virtualPath : string) (script : option string)
    (k : string) : Prop :=
  virtualPath = k.

Definition realKey (P : Platform) (root : string) (virtualPath : string)
    (script : option string) (k : string) : Prop :=
  exists realPath, script = Some realPath /\ realPathKey P root realPath = k.

(** ** Module names: virtual and real *)

Section Names.
Context {P : Platform}.

Definition getVirtualPathFromSourceNode (r : WorkspaceFileResolver P)
    (sourceNode : NodePtr) : option string :=
  virtualPath <$> deref r sourceNode.

(** The script path of the node joined to the workspace root. *)
Definition getRealPathFromSourceNode (r : WorkspaceFileResolver P)
    (sourceNode : NodePtr) : option string :=
  deref r sourceNode ≫= λ node,
  match getScriptFilePath node with
  | Some filePath => Some (path_join (rootUri r) filePath)
  | None => None
  end.

Definition resolveToVirtualPath (r : WorkspaceFileResolver P)
    (name : string) : option string :=
  if isVirtualPath P name then Some name
  else match getSourceNodeFromRealPath r name with
       | None => None
       | Some sourceNode => getVirtualPathFromSourceNode r sourceNode
       end.

Definition resolveToRealPath (r : WorkspaceFileResolver P)
    (name : string) : option string :=
  if isVirtualPath P name then
    match getSourceNodeFromVirtualPath r name with
    | Some sourceNode => getRealPathFromSourceNode r sourceNode
    | None => None
    end
  else Some name.

End Names.

(** ** The require resolver *)

Module Luau.

Record ModuleInfo := MkModuleInfo { name : string; optional : bool }.

(** The expression shapes [resolveModule] inspects; [AstExprOther] stands
    for every other kind of expression. *)
Inductive AstExpr : Type :=
| AstExprConstantString (value : string)
| AstExprGlobal (name : string)
| AstExprIndexName (expr : AstExpr) (index : string)
| AstExprIndexExpr (expr : AstExpr) (index : AstExpr)
| AstExprCall (func : AstExpr) (args : list AstExpr) (self : bool)
| AstExprOther.

End Luau.

(** What a call does: it returns a value, it dereferences a null
    pointer, or it lets the [filesystem_error] of [std::filesystem::exists]
    escape. *)
Inductive outcome (A : Type) : Type :=
| Returns (a : A)
| NullDereference
| FilesystemError.

Arguments Returns {A} a.
Arguments NullDereference {A}.
Arguments FilesystemError {A}.

(** A [ModuleInfo] built from a name alone: [optional] defaults to false. *)
Definition moduleInfo (name : string) : Luau.ModuleInfo :=
  Luau.MkModuleInfo name false.

(** Modify the context so that game/Players/LocalPlayer items point to the
    correct place. *)
Definition mapContext (context : string) : string :=
  if String.eqb context "game/Players/LocalPlayer/PlayerScripts"
  then "game/StarterPlayer/StarterPlayerScripts"
  else if String.eqb context "game/Players/LocalPlayer/PlayerGui"
  then "game/StarterGui"
  else if String.eqb context "game/Players/LocalPlayer/StarterGear"
  then "game/StarterPack"
  else context.

Section Resolver.
Context {P : Platform}.

Definition getRequireBasePath (r : WorkspaceFileResolver P)
    (fileModuleName : option string) : string :=
  match client r with
  | None => rootUri r
  | Some config =>
      match require_mode config with
      | RelativeToWorkspaceRoot => rootUri r
      | RelativeToFile =>
          match fileModuleName with
          | Some moduleName =>
              match resolveToRealPath r moduleName with
              | Some filePath => parent_path P filePath
              | None => rootUri r
              end
          | None => rootUri r
          end
      end
  end.

(** Resolve the string using a directory alias if present.  The loop runs
    over the entries in iteration order and returns at the first alias
    that is a prefix of [str].  [replace_extension] modifies [filePath] in
    place, hence the nested calls.  The call of [exists] may throw. *)
Fixpoint resolveDirectoryAlias (directoryAliases : list (string * string))
    (str : string) (includeExtension : bool) : outcome (option string) :=
  match directoryAliases with
  | [] => Returns None
  | (alias, path) :: rest =>
      if startsWith str alias then
        let remainder := substr (String.length alias) str in
        let filePath :=
          resolvePath P (if string_empty remainder then path
                         else path_join path remainder) in
        if includeExtension && negb (has_extension P filePath) then
          let filePath := replace_extension P filePath ".luau" in
          match fs_exists P filePath with
          | Some true => Returns (Some (replace_extension P filePath ".luau"))
          | Some false => Returns (Some (replace_extension P filePath ".lua"))
          | None => FilesystemError
          end
        else Returns (Some filePath)
      else resolveDirectoryAlias rest str includeExtension
  end.

(** The path a required string denotes before extensions are added:
    the custom require overrides of [resolveModule]. *)
Definition requireOverride (r : WorkspaceFileResolver P)
    (requiredString filePath : string) : outcome string :=
  match client r with
  | Some config =>
      match require_fileAliases config !! requiredString with
      | Some target => Returns (resolvePath P target)
      | None =>
          match resolveDirectoryAlias (require_directoryAliases config)
                  requiredString (includeExtension_default P) with
          | Returns (Some aliasedPath) => Returns aliasedPath
          | Returns None => Returns filePath
          | NullDereference => NullDereference
          | FilesystemError => FilesystemError
          end
      end
  | None => Returns filePath
  end.

(** The end of the string branch of [resolveModule]: [init.luau] for a
    directory, then the file endings.  A failed [weakly_canonical] yields
    the empty path; [exists] is only called when the first one succeeded,
    and may throw. *)
Definition requireFile (filePath : string) : outcome (option Luau.ModuleInfo) :=
  let filePath := if is_directory P filePath
                  then path_join filePath "init.luau" else filePath in
  let filePath := replace_extension P filePath ".luau" in
  let fallback :=
    default "" (weakly_canonical P (replace_extension P filePath ".lua")) in
  match weakly_canonical P filePath with
  | Some _ =>
      match fs_exists P filePath with
      | Some true => Returns (Some (moduleInfo (uri_normalise P filePath)))
      | Some false => Returns (Some (moduleInfo (uri_normalise P fallback)))
      | None => FilesystemError
      end
  | None => Returns (Some (moduleInfo (uri_normalise P fallback)))
  end.

(** The child of the (remapped) context with the given name. *)
Definition childOf (context : Luau.ModuleInfo) (index : string) : Luau.ModuleInfo :=
  Luau.MkModuleInfo (mapContext (Luau.name context) +:+ "/" +:+ index)
                    (Luau.optional context).

(** [resolveModule(context, node)]. *)
Definition resolveModule (r : WorkspaceFileResolver P)
    (context : option Luau.ModuleInfo) (node : Luau.AstExpr)
    : outcome (option Luau.ModuleInfo) :=
  match node with
  | Luau.AstExprConstantString requiredString =>
      let basePath := getRequireBasePath r (Luau.name <$> context) in
      let filePath := path_join basePath requiredString in
      match requireOverride r requiredString filePath with
      | Returns filePath => requireFile filePath
      | NullDereference => NullDereference
      | FilesystemError => FilesystemError
      end
  | Luau.AstExprGlobal g =>
      if String.eqb g "game" then Returns (Some (moduleInfo "game"))
      else if String.eqb g "script" then
        match context with
        | None => NullDereference
        | Some c =>
            match resolveToVirtualPath r (Luau.name c) with
            | Some virtualPath => Returns (Some (moduleInfo virtualPath))
            | None => Returns None
            end
        end
      else Returns None
  | Luau.AstExprIndexName _ index =>
      match context with
      | Some c =>
          if String.eqb index "Parent" then
            match getParentPath P (Luau.name c) with
            | Some parentPath =>
                Returns (Some (Luau.MkModuleInfo parentPath (Luau.optional c)))
            | None => Returns (Some (childOf c index))
            end
          else Returns (Some (childOf c index))
      | None => Returns None
      end
  | Luau.AstExprIndexExpr _ (Luau.AstExprConstantString index) =>
      match context with
      | Some c => Returns (Some (childOf c index))
      | None => Returns None
      end
  | Luau.AstExprIndexExpr _ _ => Returns None
  | Luau.AstExprCall func args self =>
      match self, args, context with
      | true, Luau.AstExprConstantString index :: _, Some c =>
          match func with
          | Luau.AstExprIndexName _ f =>
              if String.eqb f "GetService" && String.eqb (Luau.name c) "game"
              then Returns (Some (moduleInfo ("game/" +:+ index)))
              else if String.eqb f "WaitForChild"
                      || (String.eqb f "FindFirstChild" && Nat.eqb (length args) 1)
              then Returns (Some (childOf c index))
              else if String.eqb f "FindFirstAncestor" then
                match getAncestorPath P (Luau.name c) index with
                | Some ancestorName =>
                    Returns (Some (Luau.MkModuleInfo ancestorName (Luau.optional c)))
                | None => Returns None
                end
              else Returns None
          | _ => NullDereference
          end
      | _, _, _ => Returns None
      end
  | Luau.AstExprOther => Returns None
  end.

End Resolver.

(** ** The configuration cascade *)

(** A directory path as [std::filesystem::path] decomposes it: whether it
    has a root directory, and its file names from the last one to the
    first.  [/ws/sub] is [(true, ["sub"; "ws"])], [a] is [(false, ["a"])]
    and the root directory is [(true, [])].  The config cache is keyed by
    [path.generic_string()], which identifies the path: the cache of the
    model is keyed by the path. *)
Abbreviation Path := (bool * list string)%type.

Definition no_names (names : list string) : bool :=
  match names with [] => true | _ :: _ => false end.

Definition has_relative_path (path : Path) : bool := negb (no_names (snd path)).

Definition parent_path_of (path : Path) : Path := (fst path, tail (snd path)).

(** The parent path is not empty: the path has a root directory (the
    parent of the root directory is the root directory), or it has at
    least two names. *)
Definition has_parent_path (path : Path) : bool :=
  fst path || negb (no_names (tail (snd path))).

(** [path / name]. *)
Definition path_append (path : Path) (name : string) : Path :=
  (fst path, name :: snd path).

Record Diagnostic := {
  diagnostic_message : string;
  diagnostic_severity : string;
  diagnostic_source : string
}.

Section ConfigCascade.

(** [Luau::Config], its default, the name of the config file and
    [Luau::parseConfig], which updates the given record in place and
    returns an error message when the contents do not parse. *)
Variable Config : Type.
Variable defaultConfig : Config.
Variable kConfigName : string.
Variable parseConfig : string -> Config -> Config * option string.
Variable readFile : Path -> option string.
(** Whether a language client is attached. *)
Variable hasClient : bool.

(** The members of the resolver the cascade works on, and the diagnostics
    published to the client so far (latest first). *)
Record ConfigState := MkConfigState {
  configCache : gmap Path Config;
  configErrors : list (Path * string);
  published : list (Path * list Diagnostic)
}.

Definition publishDiagnostics (uri : Path) (ds : list Diagnostic)
    (s : ConfigState) : ConfigState :=
  MkConfigState (configCache s) (configErrors s) ((uri, ds) :: published s).

(** The part of [readConfigRec] that reads and applies the config file of
    [path] to [result]. *)
Definition applyConfigFile (path : Path) (result : Config) (s : ConfigState)
    : Config * ConfigState :=
  let configPath := path_append path kConfigName in
  match readFile configPath with
  | Some contents =>
      let '(result, error) := parseConfig contents result in
      match error with
      | Some e =>
          if hasClient
          then (result, publishDiagnostics configPath
                          [{| diagnostic_message := e;
                              diagnostic_severity := "Error";
                              diagnostic_source := "Luau" |}] s)
          else (result, MkConfigState (configCache s)
                          (configErrors s ++ [(configPath, e)])%list
                          (published s))
      | None =>
          if hasClient then (result, publishDiagnostics configPath [] s)
          else (result, s)
      end
  | None => (result, s)
  end.

(** [readConfigRec(path)]; the recursion follows the names of the path. *)
Fixpoint readConfigRec (rooted : bool) (names : list string) (s : ConfigState)
    : Config * ConfigState :=
  let path : Path := (rooted, names) in
  match configCache s !! path with
  | Some cached => (cached, s)
  | None =>
      let '(result, s) :=
        match names with
        | _ :: parent =>
            if has_relative_path path && has_parent_path path
            then readConfigRec rooted parent s
            else (defaultConfig, s)
        | [] => (defaultConfig, s)
        end in
      let '(result, s) := applyConfigFile path result s in
      (result, MkConfigState (<[path := result]> (configCache s))
                             (configErrors s) (published s))
  end.

Definition readConfig (path : Path) (s : ConfigState) : Config * ConfigState :=
  readConfigRec (fst path) (snd path) s.

Definition clearConfigCache (s : ConfigState) : ConfigState :=
  MkConfigState ∅ [] (published s).

(** The record the config file of [path] makes of [base]. *)
Definition overlay (path : Path) (base : Config) : Config :=
  match readFile (path_append path kConfigName) with
  | Some contents => fst (parseConfig contents base)
  | None => base
  end.

(** The states of a resolver that starts with an empty cache. *)
Inductive reachable : ConfigState -> Prop :=
| reachable_init : reachable (MkConfigState ∅ [] [])
| reachable_read path s : reachable s -> reachable (snd (readConfig path s))
| reachable_clear s : reachable s -> reachable (clearConfigCache s).

(** The cascade as a function of the file system alone. *)
Fixpoint cascade (rooted : bool) (names : list string) : Config :=
  overlay (rooted, names)
    match names with
    | _ :: parent =>
        if has_relative_path (rooted, names) && has_parent_path (rooted, names)
        then cascade rooted parent else defaultConfig
    | [] => defaultConfig
    end.

(** Every cached record is the cascade of its directory. *)
Definition cache_sound (s : ConfigState) : Prop :=
  forall (path : Path) (cached : Config),
    configCache s !! path = Some cached ->
    cached = cascade (fst path) (snd path).

End ConfigCascade.

(** ** Documents, sources and configuration of a module *)

(** A [Uri] as the resolver observes it: its scheme, its string form and
    its file-system path (as a generic string). *)
Record Uri := MkUri {
  scheme : string;
  toString : string;
  fsPath : string
}.

Record TextDocument := MkTextDocument {
  document_uri : Uri;
  document_languageId : string;
  document_version : nat;
  getText : string
}.

(** [Luau::SourceCode::Type]. *)
Inductive SourceCodeType :=
| SourceCode_None | SourceCode_Module | SourceCode_Script | SourceCode_Local.

(** What the remaining functions call but the file does not define. *)
Record Host := {
  Uri_parse : string -> Uri;
  Uri_file : string -> Uri;
  (** Whether the build lowercases uri strings (Windows and macOS). *)
  caseInsensitive : bool;
  toLower : string -> string;
  readFile : string -> option string;
  (** [path.extension()] and [path.relative_path().generic_string()]. *)
  extension : string -> string;
  relative_path : string -> string;
  (** [jsonValueToLuau(json::parse(s))]; [None] when it throws. *)
  jsonToLuau : string -> option string;
  sourceCodeTypeFromPath : string -> SourceCodeType;
  sourceCodeType : SourceNode -> SourceCodeType;
  (** The decomposition of a generic path string that [has_relative_path],
      [has_parent_path] and [parent_path] work on. *)
  decompose : string -> Path
}.

Section Documents.
Context {P : Platform} (H : Host).

(** The documents the editor has open, by normalised uri string. *)
Variable managedFiles : gmap string TextDocument.

Definition getModuleName (r : WorkspaceFileResolver P) (name : Uri) : string :=
  if negb (String.eqb (scheme name) "file") then toString name
  else match resolveToVirtualPath r (fsPath name) with
       | Some virtualPath => virtualPath
       | None => fsPath name
       end.

Definition normalisedUriString (uri : Uri) : string :=
  if caseInsensitive H then toLower H (toString uri) else toString uri.

Definition getTextDocument (uri : Uri) : option TextDocument :=
  managedFiles !! normalisedUriString uri.

Definition getTextDocumentFromModuleName (r : WorkspaceFileResolver P)
    (name : string) : option TextDocument :=
  if startsWith name "untitled:" then getTextDocument (Uri_parse H name)
  else match resolveToRealPath r name with
       | Some filePath => getTextDocument (Uri_file H filePath)
       | None => None
       end.

(** The text of [readSource] once the file name and the source type are
    known: the open document if there is one, else the file, a JSON file
    being turned into a module that returns its value. *)
Definition readSourceText (r : WorkspaceFileResolver P)
    (name realFileName : string) : option string :=
  match getTextDocumentFromModuleName r name with
  | Some textDocument => Some (getText textDocument)
  | None =>
      match readFile H realFileName with
      | Some source =>
          if String.eqb (extension H realFileName) ".json" then
            match jsonToLuau H source with
            | Some luau => Some ("--!strict" +:+ String "010"%char "return " +:+ luau)
            | None => None
            end
          else Some source
      | None => None
      end
  end.

Definition readSource (r : WorkspaceFileResolver P) (name : string)
    : option (string * SourceCodeType) :=
  if isVirtualPath P name then
    match getSourceNodeFromVirtualPath r name with
    | None => None
    | Some sourceNode =>
        match getRealPathFromSourceNode r sourceNode with
        | None => None
        | Some filePath =>
            match readSourceText r name filePath with
            | Some source =>
                Some (source, default SourceCode_Module
                                (sourceCodeType H <$> deref r sourceNode))
            | None => None
            end
        end
    end
  else
    match readSourceText r name name with
    | Some source => Some (source, sourceCodeTypeFromPath H name)
    | None => None
    end.

(** The document and whether the caller owns it. *)
Definition getOrCreateTextDocumentFromModuleName (r : WorkspaceFileResolver P)
    (name : string) : option TextDocument * bool :=
  match getTextDocumentFromModuleName r name with
  | Some document => (Some document, false)
  | None =>
      match resolveToRealPath r name with
      | Some filePath =>
          match readSource r name with
          | Some source =>
              (Some (MkTextDocument (Uri_file H filePath) "luau" 0 (fst source)), true)
          | None => (None, false)
          end
      | None => (None, false)
      end
  end.

Definition getHumanReadableModuleName (r : WorkspaceFileResolver P)
    (name : string) : string :=
  if isVirtualPath P name then
    match resolveToRealPath r name with
    | Some realPath => relative_path H realPath +:+ " [" +:+ name +:+ "]"
    | None => name
    end
  else name.

End Documents.

Section ModuleConfig.
Context {P : Platform} (H : Host).

Variable Config : Type.
Variable defaultConfig : Config.
Variable kConfigName : string.
Variable parseConfig : string -> Config -> Config * option string.
Variable readConfigFile : Path -> option string.
Variable hasClient : bool.

(** [getConfig(name)]: the record of the directory of the module, or the
    default record, which is not cached. *)
Definition getConfig (r : WorkspaceFileResolver P) (name : string)
    (s : ConfigState Config) : Config * ConfigState Config :=
  match resolveToRealPath r name with
  | None => (defaultConfig, s)
  | Some realPath =>
      let path := decompose H realPath in
      if negb (has_relative_path path) || negb (has_parent_path path)
      then (defaultConfig, s)
      else readConfig Config defaultConfig kConfigName parseConfig
             readConfigFile hasClient (parent_path_of path) s
  end.

End ModuleConfig.

(** ** What the specification says, where it is compared with the code *)

(** Context remapping as the specification words it: a prefix
    substitution. *)
Definition remapPrefix_spec (context : string) : string :=
  let rewrite_prefix (from to : string) :=
    if startsWith context from
    then Some (to +:+ substr (String.length from) context) else None in
  match rewrite_prefix "game/Players/LocalPlayer/PlayerScripts"
                       "game/StarterPlayer/StarterPlayerScripts" with
  | Some c => c
  | None =>
      match rewrite_prefix "game/Players/LocalPlayer/PlayerGui" "game/StarterGui" with
      | Some c => c
      | None =>
          match rewrite_prefix "game/Players/LocalPlayer/StarterGear" "game/StarterPack" with
          | Some c => c
          | None => context
          end
      end
  end.

(** Directory-alias choice as the specification words it: among the
    aliases that are a prefix of the literal, the longest one. *)
Fixpoint longestAlias_spec (directoryAliases : list (string * string))
    (str : string) : option (string * string) :=
  match directoryAliases with
  | [] => None
  | (alias, path) :: rest =>
      let best := longestAlias_spec rest str in
      if startsWith str alias then
        match best with
        | Some (alias', path') =>
            if Nat.ltb (String.length alias) (String.length alias')
            then best else Some (alias, path)
        | None => Some (alias, path)
        end
      else best
  end.

(** The real-path index key as the specification words it: the
    canonicalized join of root and script path, or the join itself. *)
Definition realPathKey_spec (P : Platform) (root realPath : string) : string :=
  default (path_join root realPath) (weakly_canonical P (path_join root realPath)).

(** ** A platform for the examples *)

Module Example.

Definition slash : ascii := "/"%char.
Definition dot : ascii := "."%char.

Definition chars (s : string) : list ascii := list_ascii_of_string s.
Definition text (l : list ascii) : string := string_of_list_ascii l.

(** Scans a reversed path for the extension of its last name; returns the
    reversed stem. *)
Fixpoint scan_extension (reversed : list ascii) : option (list ascii) :=
  match reversed with
  | [] => None
  | c :: rest =>
      if Ascii.eqb c slash then None
      else if Ascii.eqb c dot then
        match rest with
        | [] => None
        | d :: _ => if Ascii.eqb d slash then None else Some rest
        end
      else scan_extension rest
  end.

Definition has_extension (p : string) : bool :=
  match scan_extension (rev (chars p)) with Some _ => true | None => false end.

Definition replace_extension (p ext : string) : string :=
  match scan_extension (rev (chars p)) with
  | Some stem => text (rev stem) +:+ ext
  | None => p +:+ ext
  end.

(** Drops the last name of a reversed path, and the separator before it. *)
Fixpoint drop_last_name (reversed : list ascii) : option (list ascii) :=
  match reversed with
  | [] => None
  | c :: rest => if Ascii.eqb c slash then Some rest else drop_last_name rest
  end.

Definition parent_path (p : string) : string :=
  match drop_last_name (rev (chars p)) with
  | Some [] => "/"
  | Some stem => text (rev stem)
  | None => ""
  end.

(** Modelled from the spec: [getParentPath] is a helper of the utility
    header, which is not part of the sources.  Parent navigation returns
    the virtual path one level up, and no result if the context has no
    parent. *)
Definition getParentPath (p : string) : option string :=
  match drop_last_name (rev (chars p)) with
  | Some stem => Some (text (rev stem))
  | None => None
  end.

(** Modelled from the spec: [getAncestorPath] is a helper of the utility
    header, which is not part of the sources.  It walks the path upward
    looking for a segment equal to the argument and returns the path
    truncated at and including that segment. *)
Fixpoint getAncestorPath_fuel (fuel : nat) (p ancestor : string) : option string :=
  match fuel with
  | O => None
  | S fuel' =>
      match getParentPath p with
      | None => None
      | Some up =>
          if String.eqb up ancestor
             || String.eqb (substr (String.length up - String.length ancestor - 1) up)
                           ("/" +:+ ancestor)
          then Some up
          else getAncestorPath_fuel fuel' up ancestor
      end
  end.

Definition getAncestorPath (p ancestor : string) : option string :=
  getAncestorPath_fuel (String.length p) p ancestor.

(** A stand-in for the predicate of the header: the names at or below one
    of the two bases that [updateSourceMap] writes. *)
Definition isVirtualPath (name : string) : bool :=
  String.eqb name "game" || String.eqb name "ProjectRoot"
  || startsWith name "game/" || startsWith name "ProjectRoot/".

Fixpoint assoc {A : Type} (key : string) (table : list (string * A)) : option A :=
  match table with
  | [] => None
  | (k, v) :: rest => if String.eqb k key then Some v else assoc key rest
  end.

(** A platform for the examples: [canonical] is the canonicalization of
    the file system, [status] what [exists] does, and [sourcemaps] gives
    the tree that each well-formed sourcemap text denotes. *)
Definition platform_of (canonical : string -> option string)
    (status : string -> option bool)
    (sourcemaps : list (string * SourceNode)) : Platform :=
  Build_Platform
    canonical
    status
    (λ _, false)
    replace_extension
    has_extension
    parent_path
    (λ p, p)
    (λ p, p)
    isVirtualPath
    getParentPath
    getAncestorPath
    (λ contents, assoc contents sourcemaps)
    unit
    (λ _ node, node)
    false.

(** The platform on which [files] are the files that exist. *)
Definition platform (canonical : string -> option string) (files : list string)
    (sourcemaps : list (string * SourceNode)) : Platform :=
  platform_of canonical (λ p, Some (existsb (String.eqb p) files)) sourcemaps.

Definition node (name className : string) (script : option string)
    (children : list SourceNode) : SourceNode :=
  MkSourceNode name className script "" None children.

(** Scenario A of the specification. *)
Definition scenarioA : SourceNode :=
  node "Root" "DataModel" None
    [node "ReplicatedStorage" "Folder" (Some "src/shared/init.luau") []].

(** A tree with two children of the same name. *)
Definition twins : SourceNode :=
  node "Root" "DataModel" None
    [node "A" "Folder" None []; node "A" "ModuleScript" (Some "src/A.luau") []].

Definition sourcemaps : list (string * SourceNode) :=
  [("scenarioA", scenarioA); ("twins", twins)].

Definition posix : Platform := platform Some ["/ws/Modules/Foo.luau"] sourcemaps.

(** A platform on which no path can be canonicalized. *)
Definition uncanonical : Platform := platform (λ _, None) [] sourcemaps.

(** A platform on which the status of no file can be read: every call of
    [exists] throws. *)
Definition unreadable : Platform := platform_of Some (λ _, None) sourcemaps.

Definition initial (P : Platform) (client : option ClientConfiguration)
    : WorkspaceFileResolver P :=
  MkResolver "/ws" client None None ∅ ∅.

End Example.

(** Scenario E of the specification: a config record is the list of the
    settings applied to it, every config file parses and adds its contents
    as one setting, and the only config file is the one of [/ws/sub]. *)
Module ExampleConfig.

Definition Config : Type := list string.
Definition defaultConfig : Config := [].
Definition kConfigName : string := ".luaurc".

Definition parseConfig (contents : string) (result : Config)
    : Config * option string :=
  ((result ++ [contents])%list, None).

Definition readFile (path : Path) : option string :=
  if decide (path = (true, [".luaurc"; "sub"; "ws"])) then Some "X=1" else None.

Definition initial : ConfigState Config := MkConfigState Config ∅ [] [].

End ExampleConfig.

(** A host for the examples: two files on disk, one of them JSON, and no
    lowercasing of uri strings. *)
Module ExampleHost.

Definition extension (p : string) : string :=
  match Example.scan_extension (rev (Example.chars p)) with
  | Some stem => substr (length stem) p
  | None => ""
  end.

Definition relative_path (p : string) : string :=
  if is_absolute p then substr 1 p else p.

(** The names of a path from the last to the first; [current] is the
    name being read, reversed. *)
Fixpoint names_of (cs current : list ascii) (names : list string) : list string :=
  match cs with
  | [] => match current with
          | [] => names
          | _ :: _ => Example.text (rev current) :: names
          end
  | c :: rest =>
      if Ascii.eqb c Example.slash then
        names_of rest []
          match current with
          | [] => names
          | _ :: _ => Example.text (rev current) :: names
          end
      else names_of rest (c :: current) names
  end.

Definition decompose (p : string) : Path :=
  (is_absolute p, names_of (Example.chars p) [] []).

Definition files : list (string * string) :=
  [("/ws/src/shared/init.luau", "return 1"); ("/ws/data.json", "[1]")].

Definition jsonToLuau (source : string) : option string :=
  if String.eqb source "[1]" then Some "{1}" else None.

Definition host : Host :=
  Build_Host
    (λ s, MkUri "untitled" s s)
    (λ p, MkUri "file" ("file://" +:+ p) p)
    false
    (λ s, s)
    (λ p, Example.assoc p files)
    extension
    relative_path
    jsonToLuau
    (λ _, SourceCode_Module)
    (λ node, if String.eqb (className node) "Script"
             then SourceCode_Script else SourceCode_Module)
    decompose.

(** The editor has the module of scenario A open, with unsaved text. *)
Definition managedFiles : gmap string TextDocument :=
  {[ "file:///ws/src/shared/init.luau" :=
       MkTextDocument (MkUri "file" "file:///ws/src/shared/init.luau"
                             "/ws/src/shared/init.luau")
                      "luau" 3 "return 2" ]}.

End ExampleHost.

(** * Properties *)

(** ** Strings *)

Lemma startsWith_substr (alias str : string) :
  startsWith str alias = true ->
  alias +:+ substr (String.length alias) str = str.
Proof.
  unfold startsWith. revert str.
  induction alias as [|a alias IH]; intros [|b str] Hpre; simpl in *;
    try reflexivity; try discriminate.
  destruct (ascii_dec a b) as [->|]; [|discriminate].
  change (String b (alias +:+ substr (String.length alias) str) = String b str).
  f_equal. now apply IH.
Qed.

Lemma mapContext_other (context : string) :
  context <> "game/Players/LocalPlayer/PlayerScripts" ->
  context <> "game/Players/LocalPlayer/PlayerGui" ->
  context <> "game/Players/LocalPlayer/StarterGear" ->
  mapContext context = context.
Proof.
  intros H1 H2 H3. unfold mapContext.
  apply String.eqb_neq in H1, H2, H3. now rewrite H1, H2, H3.
Qed.

(** ** Name translation *)

(** C10: a name classified as a virtual path is returned unchanged by
    [resolveToVirtualPath], and a name not classified as a virtual path is
    returned unchanged by [resolveToRealPath]; in both cases whatever the
    indexes of the resolver hold and whatever files exist. *)
Theorem resolve_classified_name_unchanged (P : Platform) (name : string) :
  (isVirtualPath P name = true ->
   forall r : WorkspaceFileResolver P, resolveToVirtualPath r name = Some name) /\
  (isVirtualPath P name = false ->
   forall r : WorkspaceFileResolver P, resolveToRealPath r name = Some name).
Proof.
  split; intros Hclass r.
  - unfold resolveToVirtualPath. now rewrite Hclass.
  - unfold resolveToRealPath. now rewrite Hclass.
Qed.

Lemma resolve_classified_name_unchanged_witness :
  (forall r : WorkspaceFileResolver Example.posix,
      resolveToVirtualPath r "game/ReplicatedStorage" = Some "game/ReplicatedStorage") /\
  (forall r : WorkspaceFileResolver Example.posix,
      resolveToRealPath r "/ws/src/shared/init.luau" = Some "/ws/src/shared/init.luau").
Proof.
  split.
  - apply (proj1 (resolve_classified_name_unchanged Example.posix _)). reflexivity.
  - apply (proj2 (resolve_classified_name_unchanged Example.posix _)). reflexivity.
Defined.

(** ** The require resolver *)

(** Named child access as [resolveModule] computes it for a name other
    than [Parent]. *)
Lemma resolveModule_child (P : Platform) (r : WorkspaceFileResolver P)
    (context : option Luau.ModuleInfo) (target : Luau.AstExpr) (index : string) :
  index <> "Parent" ->
  resolveModule r context (Luau.AstExprIndexName target index)
  = Returns ((λ c, childOf c index) <$> context).
Proof.
  intros Hne. apply String.eqb_neq in Hne. simpl.
  destruct context as [c|]; [|reflexivity]. now rewrite Hne.
Qed.

(** C2 (the code departs from the claim): with no context, resolving the
    global [script] reads [context->name] through the null pointer. *)
Theorem resolveModule_script_without_context (P : Platform)
    (r : WorkspaceFileResolver P) :
  resolveModule r None (Luau.AstExprGlobal "script") = NullDereference.
Proof. reflexivity. Qed.

Lemma resolveDirectoryAlias_not_null (P : Platform)
    (aliases : list (string * string)) (str : string) (includeExtension : bool) :
  resolveDirectoryAlias (P:=P) aliases str includeExtension <> NullDereference.
Proof.
  induction aliases as [|[alias path] rest IH]; simpl; [discriminate|].
  destruct (startsWith str alias); [|exact IH].
  destruct (includeExtension && negb (has_extension P _)); [|discriminate].
  destruct (fs_exists P _) as [[|]|]; discriminate.
Qed.

(** The string branch returns a module that is not optional, or throws. *)
Lemma requireFile_outcome (P : Platform) (filePath : string) :
  (exists name, requireFile (P:=P) filePath = Returns (Some (moduleInfo name))) \/
  requireFile (P:=P) filePath = FilesystemError.
Proof.
  unfold requireFile.
  destruct (weakly_canonical P _) as [canonicalName|]; [|eauto].
  destruct (fs_exists P _) as [[|]|]; eauto.
Qed.

Lemma resolveModule_string_outcome (P : Platform) (r : WorkspaceFileResolver P)
    (context : option Luau.ModuleInfo) (requiredString : string) :
  (exists name,
     resolveModule r context (Luau.AstExprConstantString requiredString)
     = Returns (Some (moduleInfo name))) \/
  resolveModule r context (Luau.AstExprConstantString requiredString)
  = FilesystemError.
Proof.
  simpl. unfold requireOverride.
  destruct (client r) as [config|]; [|apply requireFile_outcome].
  destruct (require_fileAliases config !! requiredString);
    [apply requireFile_outcome|].
  pose proof (resolveDirectoryAlias_not_null P (require_directoryAliases config)
                requiredString (includeExtension_default P)) as Hnull.
  destruct (resolveDirectoryAlias _ _ _) as [[aliasedPath|]| |];
    try apply requireFile_outcome; [congruence|now right].
Qed.

(** C4 (amended): the context is remapped when it is equal to one of the
    three local-player paths, and only then; a named child access appends
    the child name to the remapped context and keeps the optional flag. *)
Theorem context_remapping_is_exact (P : Platform) (r : WorkspaceFileResolver P)
    (c : Luau.ModuleInfo) (target : Luau.AstExpr) (index : string) :
  index <> "Parent" ->
  resolveModule r (Some c) (Luau.AstExprIndexName target index)
  = Returns (Some (Luau.MkModuleInfo (mapContext (Luau.name c) +:+ "/" +:+ index)
                                     (Luau.optional c)))
  /\ mapContext "game/Players/LocalPlayer/PlayerScripts"
     = "game/StarterPlayer/StarterPlayerScripts"
  /\ mapContext "game/Players/LocalPlayer/PlayerGui" = "game/StarterGui"
  /\ mapContext "game/Players/LocalPlayer/StarterGear" = "game/StarterPack"
  /\ (Luau.name c <> "game/Players/LocalPlayer/PlayerScripts" ->
      Luau.name c <> "game/Players/LocalPlayer/PlayerGui" ->
      Luau.name c <> "game/Players/LocalPlayer/StarterGear" ->
      mapContext (Luau.name c) = Luau.name c).
Proof.
  intros Hne. split; [|repeat split; try reflexivity; apply mapContext_other].
  now rewrite resolveModule_child.
Qed.

(** Scenario C of the specification. *)
Lemma context_remapping_is_exact_witness :
  "Frame" <> "Parent" /\
  resolveModule (Example.initial Example.posix None)
    (Some (moduleInfo "game/Players/LocalPlayer/PlayerGui"))
    (Luau.AstExprIndexName (Luau.AstExprGlobal "script") "Frame")
  = Returns (Some (moduleInfo "game/StarterGui/Frame")).
Proof.
  split; [discriminate|].
  apply (context_remapping_is_exact Example.posix _
           (moduleInfo "game/Players/LocalPlayer/PlayerGui")).
  discriminate.
Defined.

(** C4 as stated fails: a context that begins with a local-player path
    without being equal to it is not rewritten. *)
Lemma context_remapping_not_prefix :
  let context := "game/Players/LocalPlayer/PlayerGui/ScreenGui" in
  startsWith context "game/Players/LocalPlayer/PlayerGui" = true /\
  resolveModule (Example.initial Example.posix None)
    (Some (moduleInfo context))
    (Luau.AstExprIndexName (Luau.AstExprGlobal "script") "Frame")
  = Returns (Some (moduleInfo "game/Players/LocalPlayer/PlayerGui/ScreenGui/Frame")) /\
  resolveModule (Example.initial Example.posix None)
    (Some (moduleInfo context))
    (Luau.AstExprIndexName (Luau.AstExprGlobal "script") "Frame")
  <> Returns (Some (moduleInfo (remapPrefix_spec context +:+ "/" +:+ "Frame"))).
Proof. repeat split; vm_compute; discriminate. Qed.

(** C5 (the code departs from the claim): when the context has no parent
    path, parent navigation does not end with no result; it falls through
    to the named child access and returns the child named [Parent]. *)
Theorem parent_navigation_without_parent (P : Platform)
    (r : WorkspaceFileResolver P) (c : Luau.ModuleInfo) (target : Luau.AstExpr) :
  getParentPath P (Luau.name c) = None ->
  resolveModule r (Some c) (Luau.AstExprIndexName target "Parent")
  = Returns (Some (Luau.MkModuleInfo (mapContext (Luau.name c) +:+ "/Parent")
                                     (Luau.optional c))).
Proof. intros Hnone. simpl. now rewrite Hnone. Qed.

Lemma parent_navigation_without_parent_witness :
  getParentPath Example.posix "game" = None /\
  resolveModule (Example.initial Example.posix None) (Some (moduleInfo "game"))
    (Luau.AstExprIndexName (Luau.AstExprGlobal "script") "Parent")
  = Returns (Some (moduleInfo "game/Parent")).
Proof.
  split; [reflexivity|].
  apply (parent_navigation_without_parent Example.posix _ (moduleInfo "game")).
  reflexivity.
Defined.

(** When the context has a parent path, parent navigation returns it. *)
Lemma parent_navigation_with_parent (P : Platform)
    (r : WorkspaceFileResolver P) (c : Luau.ModuleInfo) (target : Luau.AstExpr)
    (parentPath : string) :
  getParentPath P (Luau.name c) = Some parentPath ->
  resolveModule r (Some c) (Luau.AstExprIndexName target "Parent")
  = Returns (Some (Luau.MkModuleInfo parentPath (Luau.optional c))).
Proof. intros Hsome. simpl. now rewrite Hsome. Qed.

(** Scenario B of the specification. *)
Example scenario_B :
  resolveModule (Example.initial Example.posix None)
    (Some (moduleInfo "game/ReplicatedStorage/Utils"))
    (Luau.AstExprIndexName (Luau.AstExprGlobal "script") "Parent")
  = Returns (Some (moduleInfo "game/ReplicatedStorage")).
Proof. reflexivity. Qed.

(** C9: a method call of [FindFirstChild] with more than one argument has
    no result, whatever the context; [WaitForChild], and [FindFirstChild]
    with one argument, called with a string literal resolve to the child
    of the remapped context with that name and the optional flag of the
    context, which is what named child access resolves to (the name
    [Parent] apart, which named access treats as parent navigation). *)
Theorem find_first_child_resolution (P : Platform) (r : WorkspaceFileResolver P)
    (context : option Luau.ModuleInfo) (target : Luau.AstExpr) (index : string) :
  (forall first second rest self,
     resolveModule r context
       (Luau.AstExprCall (Luau.AstExprIndexName target "FindFirstChild")
                         (first :: second :: rest) self)
     = Returns None) /\
  (resolveModule r context
     (Luau.AstExprCall (Luau.AstExprIndexName target "FindFirstChild")
                       [Luau.AstExprConstantString index] true)
   = Returns ((λ c, childOf c index) <$> context)) /\
  (forall rest,
     resolveModule r context
       (Luau.AstExprCall (Luau.AstExprIndexName target "WaitForChild")
                         (Luau.AstExprConstantString index :: rest) true)
     = Returns ((λ c, childOf c index) <$> context)) /\
  (index <> "Parent" ->
   forall target' rest,
     resolveModule r context
       (Luau.AstExprCall (Luau.AstExprIndexName target "FindFirstChild")
                         [Luau.AstExprConstantString index] true)
     = resolveModule r context (Luau.AstExprIndexName target' index) /\
     resolveModule r context
       (Luau.AstExprCall (Luau.AstExprIndexName target "WaitForChild")
                         (Luau.AstExprConstantString index :: rest) true)
     = resolveModule r context (Luau.AstExprIndexName target' index)).
Proof.
  assert (Hffc : resolveModule r context
       (Luau.AstExprCall (Luau.AstExprIndexName target "FindFirstChild")
                         [Luau.AstExprConstantString index] true)
     = Returns ((λ c, childOf c index) <$> context))
    by (destruct context; reflexivity).
  assert (Hwfc : forall rest, resolveModule r context
       (Luau.AstExprCall (Luau.AstExprIndexName target "WaitForChild")
                         (Luau.AstExprConstantString index :: rest) true)
     = Returns ((λ c, childOf c index) <$> context))
    by (intros rest; destruct context; reflexivity).
  split; [|split; [exact Hffc|split; [exact Hwfc|]]].
  - intros first second rest self.
    destruct self, first, context; reflexivity.
  - intros Hne target' rest.
    now rewrite Hffc, Hwfc, resolveModule_child.
Qed.

Lemma find_first_child_resolution_witness :
  resolveModule (Example.initial Example.posix None)
    (Some (moduleInfo "game/ReplicatedStorage"))
    (Luau.AstExprCall
       (Luau.AstExprIndexName (Luau.AstExprGlobal "script") "FindFirstChild")
       [Luau.AstExprConstantString "Utils"; Luau.AstExprOther] true)
  = Returns None /\
  resolveModule (Example.initial Example.posix None)
    (Some (moduleInfo "game/ReplicatedStorage"))
    (Luau.AstExprCall
       (Luau.AstExprIndexName (Luau.AstExprGlobal "script") "FindFirstChild")
       [Luau.AstExprConstantString "Utils"] true)
  = resolveModule (Example.initial Example.posix None)
      (Some (moduleInfo "game/ReplicatedStorage"))
      (Luau.AstExprIndexName (Luau.AstExprGlobal "script") "Utils").
Proof.
  pose proof (find_first_child_resolution Example.posix
                (Example.initial Example.posix None)
                (Some (moduleInfo "game/ReplicatedStorage"))
                (Luau.AstExprGlobal "script") "Utils") as (Hmany & _ & _ & Hsame).
  split; [apply Hmany|].
  apply (Hsame ltac:(discriminate) (Luau.AstExprGlobal "script") []).
Defined.

(** ** Directory aliases *)

Lemma last_char_none (lhs : string) : last_char lhs = None -> lhs = "".
Proof.
  induction lhs as [|c rest IH]; [reflexivity|]. simpl.
  destruct rest; [discriminate|]. intros Hrest. now specialize (IH Hrest).
Qed.

(** [lhs / rhs] for an absolute and for a relative right operand. *)
Lemma path_join_cases (lhs rhs : string) :
  path_join lhs rhs
  = if is_absolute rhs then rhs else lhs +:+ separator lhs +:+ rhs.
Proof.
  unfold path_join, separator. destruct (is_absolute rhs); [reflexivity|].
  destruct (last_char lhs) as [c|] eqn:Hlast.
  - now destruct (Ascii.eqb c "/").
  - now rewrite (last_char_none lhs Hlast).
Qed.

Lemma resolveDirectoryAlias_skip (P : Platform)
    (before rest : list (string * string)) (str : string) (includeExtension : bool) :
  Forall (λ entry, startsWith str (fst entry) = false) before ->
  resolveDirectoryAlias (P:=P) (before ++ rest)%list str includeExtension
  = resolveDirectoryAlias (P:=P) rest str includeExtension.
Proof.
  induction 1 as [|[alias path] before Hhead _ IH]; simpl in *.
  - reflexivity.
  - now rewrite Hhead.
Qed.

Lemma resolveDirectoryAlias_no_match (P : Platform)
    (aliases : list (string * string)) (str : string) (includeExtension : bool) :
  Forall (λ entry, startsWith str (fst entry) = false) aliases ->
  resolveDirectoryAlias (P:=P) aliases str includeExtension = Returns None.
Proof.
  intros Hnone. rewrite <- (app_nil_r aliases).
  now rewrite resolveDirectoryAlias_skip.
Qed.

(** C6 (amended): the alias chosen is the first one, in the iteration
    order of the alias map, that is a prefix of the literal; later
    aliases, longer or not, are not looked at.  The path of the alias is
    the target directory alone when nothing of the literal remains, the
    remainder alone when it begins with a slash (the target directory is
    dropped), and otherwise the target directory, a separator where one is
    needed, and the remainder; all passed through [resolvePath].  Without
    [includeExtension], or when the path has an extension, this path is
    the result; else the ending [.luau] or [.lua] is put, according to
    whether the file with [.luau] exists, and the call throws when that
    cannot be told.  With no file alias for the literal, [resolveModule]
    goes on from this result in place of the joined base path. *)
Theorem directory_alias_first_match (P : Platform)
    (before after : list (string * string)) (alias path str : string) :
  Forall (λ entry, startsWith str (fst entry) = false) before ->
  startsWith str alias = true ->
  let aliases := (before ++ (alias, path) :: after)%list in
  let remainder := substr (String.length alias) str in
  let filePath :=
    resolvePath P (if string_empty remainder then path
                   else if is_absolute remainder then remainder
                   else path +:+ separator path +:+ remainder) in
  str = alias +:+ remainder /\
  (forall includeExtension,
     resolveDirectoryAlias (P:=P) aliases str includeExtension
     = resolveDirectoryAlias (P:=P) [(alias, path)] str includeExtension) /\
  resolveDirectoryAlias (P:=P) aliases str false = Returns (Some filePath) /\
  resolveDirectoryAlias (P:=P) aliases str true
  = (if has_extension P filePath then Returns (Some filePath)
     else match fs_exists P (replace_extension P filePath ".luau") with
          | Some true =>
              Returns (Some (replace_extension P
                               (replace_extension P filePath ".luau") ".luau"))
          | Some false =>
              Returns (Some (replace_extension P
                               (replace_extension P filePath ".luau") ".lua"))
          | None => FilesystemError
          end) /\
  (forall (r : WorkspaceFileResolver P) config context,
     client r = Some config ->
     require_fileAliases config !! str = None ->
     require_directoryAliases config = aliases ->
     resolveModule r context (Luau.AstExprConstantString str)
     = match resolveDirectoryAlias (P:=P) aliases str (includeExtension_default P) with
       | Returns (Some aliasedPath) => requireFile (P:=P) aliasedPath
       | _ => FilesystemError
       end).
Proof.
  intros Hbefore Halias aliases remainder filePath.
  assert (Hpath : filePath
                  = resolvePath P (if string_empty remainder then path
                                   else path_join path remainder))
    by (unfold filePath; now rewrite path_join_cases).
  assert (Hfirst : forall includeExtension,
             resolveDirectoryAlias (P:=P) aliases str includeExtension
             = if includeExtension && negb (has_extension P filePath)
               then match fs_exists P (replace_extension P filePath ".luau") with
                    | Some true =>
                        Returns (Some (replace_extension P
                                         (replace_extension P filePath ".luau") ".luau"))
                    | Some false =>
                        Returns (Some (replace_extension P
                                         (replace_extension P filePath ".luau") ".lua"))
                    | None => FilesystemError
                    end
               else Returns (Some filePath)).
  { intros includeExtension. unfold aliases.
    rewrite resolveDirectoryAlias_skip by assumption.
    simpl. rewrite Halias. fold remainder. now rewrite <- Hpath. }
  split; [symmetry; now apply startsWith_substr|].
  split.
  { intros includeExtension. unfold aliases.
    rewrite resolveDirectoryAlias_skip by assumption. simpl. now rewrite Halias. }
  split; [apply (Hfirst false)|].
  split.
  { rewrite (Hfirst true). simpl. now destruct (has_extension P filePath). }
  intros r config context Hclient Hfile Haliases. simpl. unfold requireOverride.
  rewrite Hclient, Hfile, Haliases, Hfirst.
  destruct (includeExtension_default P && negb (has_extension P filePath));
    [|reflexivity].
  now destruct (fs_exists P (replace_extension P filePath ".luau")) as [[|]|].
Qed.

Lemma directory_alias_first_match_witness :
  resolveDirectoryAlias (P:=Example.posix)
    [("@lib/", "/ws/lib"); ("@pkg/", "/ws/Packages"); ("@pkg/ui/", "/ws/ui")]
    "@pkg/ui/Button" false
  = Returns (Some "/ws/Packages/ui/Button").
Proof.
  apply (directory_alias_first_match Example.posix
           [("@lib/", "/ws/lib")] [("@pkg/ui/", "/ws/ui")]
           "@pkg/" "/ws/Packages" "@pkg/ui/Button").
  - repeat constructor.
  - reflexivity.
Defined.

(** C6 as stated fails: with the aliases [@a/] and [@a/b/] iterated in
    this order, the literal [@a/b/foo] is resolved through [@a/], not
    through the longest matching alias [@a/b/]. *)
Lemma directory_alias_not_longest :
  let aliases := [("@a/", "/x"); ("@a/b/", "/y")] in
  longestAlias_spec aliases "@a/b/foo" = Some ("@a/b/", "/y") /\
  resolveDirectoryAlias (P:=Example.posix) aliases "@a/b/foo" false
  = Returns (Some "/x/b/foo") /\
  resolveDirectoryAlias (P:=Example.posix) aliases "@a/b/foo" false
  <> resolveDirectoryAlias (P:=Example.posix)
       (option_list (longestAlias_spec aliases "@a/b/foo")) "@a/b/foo" false.
Proof. repeat split; vm_compute; discriminate. Qed.

(** An alias without final slash: the remainder begins with a slash and
    replaces the target directory. *)
Example directory_alias_drops_target :
  resolveDirectoryAlias (P:=Example.posix) [("@lib", "/ws/lib")] "@lib/sub/Mod" false
  = Returns (Some "/sub/Mod") /\
  resolveModule
    (Example.initial Example.posix
       (Some {| require_mode := RelativeToWorkspaceRoot;
                require_fileAliases := ∅;
                require_directoryAliases := [("@lib", "/ws/lib")] |}))
    None (Luau.AstExprConstantString "@lib/sub/Mod")
  = Returns (Some (moduleInfo "/sub/Mod.lua")).
Proof. split; vm_compute; reflexivity. Qed.

(** With [includeExtension] the call throws when [exists] does. *)
Example directory_alias_throws :
  resolveDirectoryAlias (P:=Example.unreadable) [("@lib/", "/ws/lib")] "@lib/Mod" true
  = FilesystemError.
Proof. vm_compute. reflexivity. Qed.

(** ** Building the indexes *)

Lemma writePathsToMap_leaf (P : Platform) (r : WorkspaceFileResolver P)
    (ptr : NodePtr) (par : option NodePtr) (node : SourceNode) (base : string) :
  children node = [] ->
  snd (writePathsToMap ptr par node base r) = writeNode ptr node base r.
Proof. intros Hleaf. destruct node; simpl in *. now subst. Qed.

(** When the joined path can be canonicalized, the canonical path is the
    key. *)
Lemma real_path_key_canonical (P : Platform) (r : WorkspaceFileResolver P)
    (ptr : NodePtr) (par : option NodePtr) (node : SourceNode)
    (base realPath canonicalName : string) :
  children node = [] ->
  getScriptFilePath node = Some realPath ->
  weakly_canonical P (path_join (rootUri r) realPath) = Some canonicalName ->
  realPathsToSourceNodes (snd (writePathsToMap ptr par node base r))
  = <[canonicalName := ptr]> (realPathsToSourceNodes r).
Proof.
  intros Hleaf Hscript Hcanon. rewrite writePathsToMap_leaf by assumption.
  unfold writeNode, realPathKey. rewrite Hscript. simpl. now rewrite Hcanon.
Qed.

(** C7 (the code departs from the claim): when the joined path cannot be
    canonicalized, the key of the real-path index is the script file path
    as the sourcemap gives it, not its join with the workspace root. *)
Theorem real_path_key_without_canonical_path (P : Platform)
    (r : WorkspaceFileResolver P) (ptr : NodePtr) (par : option NodePtr)
    (node : SourceNode) (base realPath : string) :
  children node = [] ->
  getScriptFilePath node = Some realPath ->
  weakly_canonical P (path_join (rootUri r) realPath) = None ->
  realPathsToSourceNodes (snd (writePathsToMap ptr par node base r))
  = <[realPath := ptr]> (realPathsToSourceNodes r).
Proof.
  intros Hleaf Hscript Hcanon. rewrite writePathsToMap_leaf by assumption.
  unfold writeNode, realPathKey. rewrite Hscript. simpl. now rewrite Hcanon.
Qed.

Lemma real_path_key_without_canonical_path_witness :
  let leaf := Example.node "ReplicatedStorage" "Folder" (Some "src/shared/init.luau") [] in
  realPathsToSourceNodes
    (snd (writePathsToMap [0] (Some []) leaf "game/ReplicatedStorage"
            (Example.initial Example.uncanonical None)))
  = <["src/shared/init.luau" := [0]]> ∅
  /\ realPathKey_spec Example.uncanonical "/ws" "src/shared/init.luau"
     = "/ws/src/shared/init.luau".
Proof.
  split; [|reflexivity].
  apply (real_path_key_without_canonical_path Example.uncanonical
           (Example.initial Example.uncanonical None)); reflexivity.
Defined.

(** ** Rebuilding from a malformed sourcemap *)

(** C1 (amended): when the sourcemap does not parse, [updateSourceMap]
    leaves the previously built tree in place, and both path indexes are
    empty afterwards: they are cleared before the sourcemap is parsed, so
    every lookup has no result until a sourcemap parses again. *)
Theorem updateSourceMap_malformed (P : Platform) (contents : string)
    (r : WorkspaceFileResolver P) :
  parseSourceMap P contents = None ->
  rootSourceNode (updateSourceMap contents r) = rootSourceNode r /\
  virtualPathsToSourceNodes (updateSourceMap contents r) = ∅ /\
  realPathsToSourceNodes (updateSourceMap contents r) = ∅ /\
  (forall name, getSourceNodeFromVirtualPath (updateSourceMap contents r) name = None) /\
  (forall name, getSourceNodeFromRealPath (updateSourceMap contents r) name = None).
Proof.
  intros Hparse. unfold updateSourceMap. rewrite Hparse. simpl.
  repeat split; intros;
    unfold getSourceNodeFromVirtualPath, getSourceNodeFromRealPath; simpl;
    apply lookup_empty.
Qed.

Lemma updateSourceMap_malformed_witness :
  let built := updateSourceMap "scenarioA" (Example.initial Example.posix None) in
  rootSourceNode (updateSourceMap "{" built) = rootSourceNode built /\
  virtualPathsToSourceNodes (updateSourceMap "{" built) = ∅.
Proof.
  intros built.
  destruct (updateSourceMap_malformed Example.posix "{" built eq_refl)
    as (Hroot & Hvirtual & _).
  split; assumption.
Defined.

(** C1 as stated fails: after a sourcemap that does not parse, the
    indexes built from the previous sourcemap are gone. *)
Lemma updateSourceMap_malformed_loses_indexes :
  let built := updateSourceMap "scenarioA" (Example.initial Example.posix None) in
  let after := updateSourceMap "{" built in
  parseSourceMap Example.posix "{" = None /\
  getSourceNodeFromVirtualPath built "game/ReplicatedStorage" = Some [0] /\
  getSourceNodeFromVirtualPath after "game/ReplicatedStorage" = None /\
  getSourceNodeFromRealPath built "/ws/src/shared/init.luau" = Some [0] /\
  getSourceNodeFromRealPath after "/ws/src/shared/init.luau" = None /\
  virtualPathsToSourceNodes after <> virtualPathsToSourceNodes built.
Proof.
  repeat split; try (vm_compute; reflexivity).
  intros Heq.
  assert (H : virtualPathsToSourceNodes
                (updateSourceMap "{"
                   (updateSourceMap "scenarioA" (Example.initial Example.posix None)))
              !! "game" = Some []) by (rewrite Heq; vm_compute; reflexivity).
  vm_compute in H. discriminate.
Qed.

(** ** The configuration cascade *)

Section ConfigCascadeProperties.

Variable Config : Type.
Variable defaultConfig : Config.
Variable kConfigName : string.
Variable parseConfig : string -> Config -> Config * option string.
Variable readFile : Path -> option string.
Variable hasClient : bool.

Local Abbreviation readConfigRec :=
  (readConfigRec Config defaultConfig kConfigName parseConfig readFile hasClient).
Local Abbreviation readConfig :=
  (readConfig Config defaultConfig kConfigName parseConfig readFile hasClient).
Local Abbreviation applyConfigFile :=
  (applyConfigFile Config kConfigName parseConfig readFile hasClient).
Local Abbreviation overlay := (overlay Config kConfigName parseConfig readFile).
Local Abbreviation cascade :=
  (cascade Config defaultConfig kConfigName parseConfig readFile).
Local Abbreviation reachable :=
  (reachable Config defaultConfig kConfigName parseConfig readFile hasClient).
Local Abbreviation clearConfigCache := (clearConfigCache Config).
Local Abbreviation cache_sound :=
  (cache_sound Config defaultConfig kConfigName parseConfig readFile).

Lemma applyConfigFile_spec (path : Path) (base : Config) (s : ConfigState Config) :
  fst (applyConfigFile path base s) = overlay path base /\
  configCache Config (snd (applyConfigFile path base s)) = configCache Config s.
Proof.
  unfold applyConfigFile, overlay.
  destruct (readFile (path_append path kConfigName)) as [contents|]; [|easy].
  destruct (parseConfig contents base) as [result [e|]];
    destruct hasClient; easy.
Qed.

Lemma cache_sound_insert (s s' : ConfigState Config) (rooted : bool)
    (names : list string) (result : Config) :
  cache_sound s ->
  configCache Config s' = <[(rooted, names) := result]> (configCache Config s) ->
  result = cascade rooted names ->
  cache_sound s'.
Proof.
  intros Hsound Hcache Hresult path cached. rewrite Hcache.
  destruct (decide ((rooted, names) = path)) as [<-|Hne].
  - rewrite lookup_insert_eq. intros [= <-]. exact Hresult.
  - rewrite lookup_insert_ne by assumption. apply Hsound.
Qed.

Lemma readConfigRec_miss (rooted : bool) (names : list string)
    (s : ConfigState Config) (base : Config) (s1 : ConfigState Config) :
  configCache Config s !! (rooted, names) = None ->
  match names with
  | _ :: parent =>
      if has_relative_path (rooted, names) && has_parent_path (rooted, names)
      then readConfigRec rooted parent s else (defaultConfig, s)
  | [] => (defaultConfig, s)
  end = (base, s1) ->
  fst (readConfigRec rooted names s) = overlay (rooted, names) base /\
  configCache Config (snd (readConfigRec rooted names s))
  = <[(rooted, names) := overlay (rooted, names) base]> (configCache Config s1).
Proof.
  intros Hmiss Hbase.
  destruct (applyConfigFile_spec (rooted, names) base s1) as [Hres Hcache].
  destruct names as [|n parent]; simpl in *; rewrite Hmiss.
  - injection Hbase as <- <-.
    destruct (applyConfigFile (rooted, []) defaultConfig s) as [result s2].
    simpl in *. subst. now rewrite Hcache.
  - rewrite Hbase.
    destruct (applyConfigFile (rooted, n :: parent) base s1) as [result s2].
    simpl in *. subst. now rewrite Hcache.
Qed.

Lemma cascade_cons (rooted : bool) (n : string) (parent : list string) :
  cascade rooted (n :: parent)
  = overlay (rooted, n :: parent)
      (if has_relative_path (rooted, n :: parent)
          && has_parent_path (rooted, n :: parent)
       then cascade rooted parent else defaultConfig).
Proof. reflexivity. Qed.

Lemma readConfigRec_sound (rooted : bool) (names : list string) :
  forall s : ConfigState Config,
    cache_sound s ->
    fst (readConfigRec rooted names s) = cascade rooted names /\
    cache_sound (snd (readConfigRec rooted names s)).
Proof.
  induction names as [|n parent IH]; intros s Hsound.
  - destruct (configCache Config s !! (rooted, [])) as [cached|] eqn:Hlook.
    + simpl. rewrite Hlook. split; [|assumption].
      exact (Hsound _ _ Hlook).
    + destruct (readConfigRec_miss rooted [] s defaultConfig s Hlook eq_refl)
        as [Hres Hcache].
      split; [exact Hres|].
      eapply cache_sound_insert; [exact Hsound|exact Hcache|reflexivity].
  - destruct (configCache Config s !! (rooted, n :: parent)) as [cached|] eqn:Hlook.
    + simpl. rewrite Hlook. split; [|assumption].
      exact (Hsound _ _ Hlook).
    + destruct (has_relative_path (rooted, n :: parent)
                && has_parent_path (rooted, n :: parent)) eqn:Hup.
      * destruct (IH s Hsound) as [Hpres Hpsound].
        destruct (readConfigRec rooted parent s) as [base s1] eqn:Hrec.
        simpl in Hpres, Hpsound.
        destruct (readConfigRec_miss rooted (n :: parent) s base s1 Hlook)
          as [Hres Hcache]; [now rewrite Hup|].
        split.
        -- now rewrite Hres, cascade_cons, Hup, Hpres.
        -- eapply cache_sound_insert; [exact Hpsound|exact Hcache|].
           now rewrite cascade_cons, Hup, Hpres.
      * destruct (readConfigRec_miss rooted (n :: parent) s defaultConfig s Hlook)
          as [Hres Hcache]; [now rewrite Hup|].
        split.
        -- now rewrite Hres, cascade_cons, Hup.
        -- eapply cache_sound_insert; [exact Hsound|exact Hcache|].
           now rewrite cascade_cons, Hup.
Qed.

Lemma reachable_cache_sound (s : ConfigState Config) :
  reachable s -> cache_sound s.
Proof.
  induction 1 as [|path s _ IH|s _ IH].
  - intros path cached. simpl. now rewrite lookup_empty.
  - apply readConfigRec_sound, IH.
  - intros path cached. simpl. now rewrite lookup_empty.
Qed.

Lemma readConfig_cascade (s : ConfigState Config) (path : Path) :
  cache_sound s -> fst (readConfig path s) = cascade (fst path) (snd path).
Proof. intros Hsound. now apply readConfigRec_sound. Qed.

Lemma cascade_step (path : Path) :
  cascade (fst path) (snd path)
  = overlay path
      (if has_relative_path path && has_parent_path path
       then cascade (fst (parent_path_of path)) (snd (parent_path_of path))
       else defaultConfig).
Proof. destruct path as [rooted [|n parent]]; reflexivity. Qed.

(** C8: on a resolver that started with an empty cache, the record of a
    directory that has a parent is the record of the parent directory
    with the config file of the directory applied to it, and the record of
    a directory without parent is the default record with its config file
    applied; clearing the cache and asking again, with the same files,
    gives the same record. *)
Theorem config_cascade (s : ConfigState Config) (path : Path) :
  reachable s ->
  (has_relative_path path && has_parent_path path = true ->
   fst (readConfig path s)
   = overlay path (fst (readConfig (parent_path_of path) s))) /\
  (has_relative_path path && has_parent_path path = false ->
   fst (readConfig path s) = overlay path defaultConfig) /\
  fst (readConfig path (clearConfigCache (snd (readConfig path s))))
  = fst (readConfig path s).
Proof.
  intros Hreach. pose proof (reachable_cache_sound s Hreach) as Hsound.
  assert (Hcleared : cache_sound (clearConfigCache (snd (readConfig path s)))).
  { apply reachable_cache_sound. now do 2 constructor. }
  rewrite !readConfig_cascade by assumption.
  rewrite (cascade_step path).
  repeat split.
  - now intros ->.
  - now intros ->.
Qed.

End ConfigCascadeProperties.

(** Scenario E of the specification: the setting of [/ws/sub] is inherited
    by [/ws/sub/deep]. *)
Lemma config_cascade_witness :
  let readConfig :=
    readConfig ExampleConfig.Config ExampleConfig.defaultConfig
      ExampleConfig.kConfigName ExampleConfig.parseConfig
      ExampleConfig.readFile false in
  fst (readConfig (true, ["deep"; "sub"; "ws"]) ExampleConfig.initial)
  = fst (readConfig (true, ["sub"; "ws"]) ExampleConfig.initial)
  /\ fst (readConfig (true, ["deep"; "sub"; "ws"]) ExampleConfig.initial) = ["X=1"].
Proof.
  split; [|vm_compute; reflexivity].
  pose proof (config_cascade ExampleConfig.Config ExampleConfig.defaultConfig
                ExampleConfig.kConfigName ExampleConfig.parseConfig
                ExampleConfig.readFile false ExampleConfig.initial
                (true, ["deep"; "sub"; "ws"])
                (reachable_init _ _ _ _ _ _)) as (Hparent & _ & _).
  exact (Hparent eq_refl).
Defined.

(** ** The indexes after a rebuild *)

Lemma SourceNode_nested_ind (Q : SourceNode -> Prop) :
  (forall node, Forall Q (children node) -> Q node) ->
  forall node, Q node.
Proof.
  intros Hstep. fix IH 1. intros node. apply Hstep.
  destruct node as [n c s v p cs]. simpl.
  induction cs as [|child rest IHrest]; constructor.
  - apply IH.
  - exact IHrest.
Qed.

Lemma writePathsToMap_unfold (P : Platform) (ptr : NodePtr)
    (par : option NodePtr) (node : SourceNode) (base : string)
    (r : WorkspaceFileResolver P) :
  writePathsToMap ptr par node base r
  = let '(cs, r3) :=
      writeChildren ptr base 0 (children node) (writeNode ptr node base r) in
    (MkSourceNode (name node) (className node) (getScriptFilePath node)
                  base par cs, r3).
Proof.
  destruct node as [n c s v p cs]. simpl.
  match goal with
  | |- context [?loop 0 cs (writeNode ptr ?node base r)] =>
      assert (Hloop : forall cs i r, loop i cs r = writeChildren ptr base i cs r)
  end.
  { clear. induction cs as [|child rest IH]; intros i r; simpl.
    - reflexivity.
    - destruct (writePathsToMap (ptr ++ [i])%list (Some ptr) child
                  (base +:+ "/" +:+ name child) r) as [child' r'].
      now rewrite IH. }
  now rewrite Hloop.
Qed.

Lemma rootUri_writeNode (P : Platform) (ptr : NodePtr) (node : SourceNode)
    (base : string) (r : WorkspaceFileResolver P) :
  rootUri (writeNode ptr node base r) = rootUri r.
Proof. unfold writeNode. now destruct (getScriptFilePath node). Qed.

Section OneIndex.

Context {P : Platform}.

(** One of the two indexes, and the keys under which it files a node with
    the given virtual path and script file path. *)
Variable index : WorkspaceFileResolver P -> gmap string NodePtr.
Variable keyOf : string -> option string -> string -> Prop.
Variable root : string.

Hypothesis writeNode_lookup :
  forall ptr node base (r : WorkspaceFileResolver P) k q,
    rootUri r = root ->
    index (writeNode ptr node base r) !! k = Some q ->
    index r !! k = Some q \/ (q = ptr /\ keyOf base (getScriptFilePath node) k).

Hypothesis writeNode_key :
  forall ptr node base (r : WorkspaceFileResolver P) k,
    rootUri r = root ->
    keyOf base (getScriptFilePath node) k ->
    is_Some (index (writeNode ptr node base r) !! k).

Hypothesis writeNode_keeps :
  forall ptr node base (r : WorkspaceFileResolver P) k,
    is_Some (index r !! k) -> is_Some (index (writeNode ptr node base r) !! k).

Local Abbreviation keyOfNode := (keyOfNode keyOf).
Local Abbreviation walked := (walked index keyOf root).

Lemma writeChildren_walked (ptr : NodePtr) (base : string) (cs : list SourceNode) :
  Forall (fun child => forall ptr par base (r : WorkspaceFileResolver P),
            rootUri r = root ->
            walked r (snd (writePathsToMap ptr par child base r))
                   (fun q n => node_at (fst (writePathsToMap ptr par child base r)) q = Some n)
                   ptr) cs ->
  forall (i : nat) (r : WorkspaceFileResolver P),
    rootUri r = root ->
    walked r (snd (writeChildren ptr base i cs r))
           (belowChildren i (fst (writeChildren ptr base i cs r))) ptr.
Proof.
  induction 1 as [|child rest Hchild _ IH]; intros i r Hroot.
  - simpl. repeat split; auto.
    intros q' n k (j & c & q'' & _ & Hnth & _). now destruct j.
  - simpl.
    specialize (Hchild (ptr ++ [i])%list (Some ptr) (base +:+ "/" +:+ name child) r Hroot).
    destruct (writePathsToMap (ptr ++ [i])%list (Some ptr) child
                (base +:+ "/" +:+ name child) r) as [child' r1].
    simpl in Hchild. destruct Hchild as (Hroot1 & Hs1 & Hc1 & Hm1).
    specialize (IH (S i) r1 Hroot1).
    destruct (writeChildren ptr base (S i) rest r1) as [rest' r2].
    simpl in *. destruct IH as (Hroot2 & Hs2 & Hc2 & Hm2).
    repeat split.
    + exact Hroot2.
    + intros k q Hk. destruct (Hs2 k q Hk) as [Hold|(q' & n & -> & Hbelow & Hkey)].
      * destruct (Hs1 k q Hold) as [Hold'|(q' & n & -> & Hat & Hkey)]; [now left|].
        right. exists (i :: q')%list, n. repeat split; [|exists 0, child', q'|exact Hkey].
        -- now rewrite <- app_assoc.
        -- rewrite Nat.add_0_r. now repeat split.
      * right. exists q', n. repeat split; [|exact Hkey].
        destruct Hbelow as (j & c & q'' & -> & Hnth & Hat).
        exists (S j), c, q''. repeat split; [|exact Hnth|exact Hat].
        f_equal. lia.
    + intros q' n k (j & c & q'' & -> & Hnth & Hat) Hkey.
      destruct j as [|j]; simpl in Hnth.
      * injection Hnth as <-. apply Hm2. eapply Hc1; eauto.
      * eapply Hc2; [|exact Hkey]. exists j, c, q''. repeat split; eauto.
    + intros k Hk. apply Hm2, Hm1, Hk.
Qed.

Lemma writePathsToMap_walked (node : SourceNode) :
  forall ptr par base (r : WorkspaceFileResolver P),
    rootUri r = root ->
    walked r (snd (writePathsToMap ptr par node base r))
           (fun q n => node_at (fst (writePathsToMap ptr par node base r)) q = Some n)
           ptr.
Proof.
  induction node as [node IH] using SourceNode_nested_ind.
  intros ptr par base r Hroot. rewrite writePathsToMap_unfold.
  pose proof (writeChildren_walked ptr base (children node) IH 0
                (writeNode ptr node base r)) as Hwalk.
  rewrite rootUri_writeNode in Hwalk. specialize (Hwalk Hroot).
  destruct (writeChildren ptr base 0 (children node) (writeNode ptr node base r))
    as [cs r3].
  simpl in *. destruct Hwalk as (Hroot3 & Hs & Hc & Hm).
  repeat split.
  - exact Hroot3.
  - intros k q Hk. destruct (Hs k q Hk) as [Hold|(q' & n & -> & Hbelow & Hkey)].
    + destruct (writeNode_lookup _ _ _ _ _ _ Hroot Hold) as [Hold'|[-> Hkey]];
        [now left|].
      right. eexists [], _. rewrite app_nil_r. repeat split. exact Hkey.
    + right. exists q', n. repeat split; [|exact Hkey].
      destruct Hbelow as (j & c & q'' & -> & Hnth & Hat).
      simpl. now rewrite Hnth.
  - intros q' n k Hat Hkey. destruct q' as [|j q''].
    + injection Hat as <-. apply Hm. now apply writeNode_key.
    + simpl in Hat. destruct (nth_error cs j) as [c|] eqn:Hnth; [|discriminate].
      eapply Hc; [|exact Hkey]. exists j, c, q''. now repeat split.
  - intros k Hk. now apply Hm, writeNode_keeps.
Qed.

End OneIndex.

Lemma virtualPaths_writeNode (P : Platform) (ptr : NodePtr) (node : SourceNode)
    (base : string) (r : WorkspaceFileResolver P) :
  virtualPathsToSourceNodes (writeNode ptr node base r)
  = <[base := ptr]> (virtualPathsToSourceNodes r).
Proof. unfold writeNode. now destruct (getScriptFilePath node). Qed.

Lemma realPaths_writeNode (P : Platform) (ptr : NodePtr) (node : SourceNode)
    (base : string) (r : WorkspaceFileResolver P) :
  realPathsToSourceNodes (writeNode ptr node base r)
  = match getScriptFilePath node with
    | Some realPath =>
        <[realPathKey P (rootUri r) realPath := ptr]> (realPathsToSourceNodes r)
    | None => realPathsToSourceNodes r
    end.
Proof. unfold writeNode. now destruct (getScriptFilePath node). Qed.

Lemma lookup_insert_keeps (m : gmap string NodePtr) (key k : string) (ptr : NodePtr) :
  is_Some (m !! k) -> is_Some (<[key := ptr]> m !! k).
Proof.
  intros Hk. destruct (decide (key = k)) as [->|Hne].
  - rewrite lookup_insert_eq. eauto.
  - now rewrite lookup_insert_ne.
Qed.

Lemma virtualPaths_walked (P : Platform) (node : SourceNode) (ptr : NodePtr)
    (par : option NodePtr) (base : string) (r : WorkspaceFileResolver P) :
  walked virtualPathsToSourceNodes virtualKey (rootUri r)
    r (snd (writePathsToMap ptr par node base r))
    (fun q n => node_at (fst (writePathsToMap ptr par node base r)) q = Some n) ptr.
Proof.
  apply writePathsToMap_walked; [| | |reflexivity].
  - intros p0 n0 b0 r0 k q _. rewrite virtualPaths_writeNode. unfold virtualKey.
    destruct (decide (b0 = k)) as [->|Hne].
    + rewrite lookup_insert_eq. intros [= <-]. now right.
    + rewrite lookup_insert_ne by assumption. now left.
  - intros p0 n0 b0 r0 k _ <-. rewrite virtualPaths_writeNode, lookup_insert_eq. eauto.
  - intros p0 n0 b0 r0 k Hk. rewrite virtualPaths_writeNode.
    now apply lookup_insert_keeps.
Qed.

Lemma realPaths_walked (P : Platform) (node : SourceNode) (ptr : NodePtr)
    (par : option NodePtr) (base : string) (r : WorkspaceFileResolver P) :
  walked realPathsToSourceNodes (realKey P (rootUri r)) (rootUri r)
    r (snd (writePathsToMap ptr par node base r))
    (fun q n => node_at (fst (writePathsToMap ptr par node base r)) q = Some n) ptr.
Proof.
  apply writePathsToMap_walked; [| | |reflexivity].
  - intros p0 n0 b0 r0 k q Hroot. rewrite realPaths_writeNode, Hroot. unfold realKey.
    destruct (getScriptFilePath n0) as [realPath|]; [|now left].
    destruct (decide (realPathKey P (rootUri r) realPath = k)) as [<-|Hne].
    + rewrite lookup_insert_eq. intros [= <-]. right. eauto.
    + rewrite lookup_insert_ne by assumption. now left.
  - intros p0 n0 b0 r0 k Hroot (realPath & Hscript & <-).
    rewrite realPaths_writeNode, Hscript, Hroot, lookup_insert_eq. eauto.
  - intros p0 n0 b0 r0 k Hk. rewrite realPaths_writeNode.
    destruct (getScriptFilePath n0); [|assumption].
    now apply lookup_insert_keeps.
Qed.

(** A sourcemap that parses: the resolver after [updateSourceMap] is the
    result of one walk that starts with both indexes empty. *)
Lemma updateSourceMap_parsed (P : Platform) (contents : string)
    (r : WorkspaceFileResolver P) (j : SourceNode) :
  parseSourceMap P contents = Some j ->
  exists (root : SourceNode) (base : string) (r0 : WorkspaceFileResolver P),
    rootUri r0 = rootUri r /\
    virtualPathsToSourceNodes r0 = ∅ /\
    realPathsToSourceNodes r0 = ∅ /\
    updateSourceMap contents r
    = set_rootSourceNode
        (Some (fst (writePathsToMap [] (parent root) root base r0)))
        (snd (writePathsToMap [] (parent root) root base r0)).
Proof.
  intros Hparse. unfold updateSourceMap. rewrite Hparse.
  match goal with
  | |- context [writePathsToMap [] (parent ?root) ?root ?base ?r0] =>
      exists root, base, r0
  end.
  repeat split.
  match goal with
  | |- context [writePathsToMap ?a ?b ?c ?d ?e] =>
      destruct (writePathsToMap a b c d e) as [root' r']
  end.
  reflexivity.
Qed.

(** C3 (amended): after a rebuild from a sourcemap that parses, looking up
    the virtual path of a node returns that node when no other node of the
    tree has the same virtual path; and when the node has a script file
    path whose join with the workspace root can be canonicalized, looking
    up that real path returns that node when no other node is filed under
    the same key. *)
Theorem index_lookup_returns_node (P : Platform) (contents : string)
    (r : WorkspaceFileResolver P) (j : SourceNode)
    (ptr : NodePtr) (node : SourceNode) :
  parseSourceMap P contents = Some j ->
  deref (updateSourceMap contents r) ptr = Some node ->
  ((forall ptr' node',
      deref (updateSourceMap contents r) ptr' = Some node' ->
      virtualPath node' = virtualPath node -> ptr' = ptr) ->
   getSourceNodeFromVirtualPath (updateSourceMap contents r) (virtualPath node)
   = Some ptr) /\
  (forall realPath canonicalName,
     getScriptFilePath node = Some realPath ->
     weakly_canonical P (path_join (rootUri r) realPath) = Some canonicalName ->
     (forall ptr' node' realPath',
        deref (updateSourceMap contents r) ptr' = Some node' ->
        getScriptFilePath node' = Some realPath' ->
        realPathKey P (rootUri r) realPath' = canonicalName -> ptr' = ptr) ->
     getSourceNodeFromRealPath (updateSourceMap contents r)
       (path_join (rootUri r) realPath)
     = Some ptr).
Proof.
  intros Hparse Hnode.
  destruct (updateSourceMap_parsed P contents r j Hparse)
    as (root & base & r0 & Hroot & Hvempty & Hrempty & Hupdate).
  rewrite Hupdate in *. clear Hupdate.
  pose proof (virtualPaths_walked P root [] (parent root) base r0) as Hv.
  pose proof (realPaths_walked P root [] (parent root) base r0) as Hr.
  rewrite Hroot in Hv, Hr.
  destruct (writePathsToMap [] (parent root) root base r0) as [root' r'].
  unfold deref, getSourceNodeFromVirtualPath, getSourceNodeFromRealPath in *.
  simpl in *.
  destruct Hv as (_ & Hvs & Hvc & _). destruct Hr as (_ & Hrs & Hrc & _).
  split.
  - intros Hunique.
    destruct (Hvc ptr node (virtualPath node) Hnode eq_refl) as [q Hq].
    rewrite Hq. f_equal.
    destruct (Hvs _ _ Hq) as [Hold|(q' & n & -> & Hat & Hkey)].
    + rewrite Hvempty, lookup_empty in Hold. discriminate.
    + apply (Hunique q' n Hat Hkey).
  - intros realPath canonicalName Hscript Hcanon Hunique. rewrite Hcanon.
    assert (Hkey : keyOfNode (realKey P (rootUri r)) node canonicalName).
    { exists realPath. split; [exact Hscript|].
      unfold realPathKey. now rewrite Hcanon. }
    destruct (Hrc ptr node canonicalName Hnode Hkey) as [q Hq].
    rewrite Hq. f_equal.
    destruct (Hrs _ _ Hq) as [Hold|(q' & n & -> & Hat & realPath' & Hscript' & Hkey')].
    + rewrite Hrempty, lookup_empty in Hold. discriminate.
    + apply (Hunique q' n realPath' Hat Hscript' Hkey').
Qed.

(** Scenario A of the specification. *)
Lemma index_lookup_returns_node_witness :
  let r := updateSourceMap "scenarioA" (Example.initial Example.posix None) in
  getSourceNodeFromVirtualPath r "game/ReplicatedStorage" = Some [0] /\
  getSourceNodeFromRealPath r "/ws/src/shared/init.luau" = Some [0].
Proof.
  intros r.
  assert (Hnode : deref r [0]
                  = Some (MkSourceNode "ReplicatedStorage" "Folder"
                            (Some "src/shared/init.luau")
                            "game/ReplicatedStorage" (Some []) []))
    by (vm_compute; reflexivity).
  assert (Hnodes : forall ptr' node',
             deref r ptr' = Some node' ->
             (ptr' = [] /\ virtualPath node' = "game" /\ getScriptFilePath node' = None)
             \/ ptr' = [0]).
  { intros [|[|[|i]] [|[|i'] rest]] node' Hat; vm_compute in Hat;
      try discriminate; [left|right; reflexivity].
    injection Hat as <-. repeat split. }
  destruct (index_lookup_returns_node Example.posix "scenarioA"
              (Example.initial Example.posix None) Example.scenarioA [0] _
              eq_refl Hnode) as [Hvirtual Hreal].
  split.
  - apply Hvirtual. intros ptr' node' Hat Hpath.
    destruct (Hnodes ptr' node' Hat) as [(_ & Hgame & _)| ->]; [|reflexivity].
    rewrite Hgame in Hpath. discriminate.
  - apply (Hreal "src/shared/init.luau" "/ws/src/shared/init.luau" eq_refl eq_refl).
    intros ptr' node' realPath' Hat Hscript _.
    destruct (Hnodes ptr' node' Hat) as [(_ & _ & Hnone)| ->]; [|reflexivity].
    rewrite Hnone in Hscript. discriminate.
Defined.

(** C3 as stated fails: of two children with the same name, the lookup of
    their common virtual path returns the second one. *)
Lemma index_lookup_misses_twin :
  let r := updateSourceMap "twins" (Example.initial Example.posix None) in
  exists first second,
    deref r [0] = Some first /\ deref r [1] = Some second /\
    virtualPath first = virtualPath second /\
    getSourceNodeFromVirtualPath r (virtualPath first) = Some [1] /\
    getSourceNodeFromVirtualPath r (virtualPath first) <> Some [0].
Proof.
  eexists _, _. split; [vm_compute; reflexivity|].
  split; [vm_compute; reflexivity|].
  repeat split; vm_compute; discriminate.
Qed.

(** The consequence of the fallback key: a node filed when its path could
    not be canonicalized is not found through its real path. *)
Example real_path_lookup_after_fallback :
  let r := updateSourceMap "scenarioA" (Example.initial Example.uncanonical None) in
  getRealPathFromSourceNode r [0] = Some "/ws/src/shared/init.luau" /\
  getSourceNodeFromRealPath r "/ws/src/shared/init.luau" = None /\
  getSourceNodeFromRealPath r "src/shared/init.luau" = Some [0].
Proof. repeat split; vm_compute; reflexivity. Qed.

(** Scenario D of the specification. *)
Example scenario_D :
  resolveModule (Example.initial Example.posix None) None
    (Luau.AstExprConstantString "Modules/Foo")
  = Returns (Some (moduleInfo "/ws/Modules/Foo.luau")).
Proof. vm_compute. reflexivity. Qed.

(** * Further properties *)

(** ** The tree after the walk *)

Lemma writePathsToMap_fields (P : Platform) (ptr : NodePtr)
    (par : option NodePtr) (node : SourceNode) (base : string)
    (r : WorkspaceFileResolver P) :
  let node' := fst (writePathsToMap ptr par node base r) in
  name node' = name node /\ className node' = className node /\
  getScriptFilePath node' = getScriptFilePath node /\
  virtualPath node' = base /\ parent node' = par /\
  children node' = fst (writeChildren ptr base 0 (children node)
                          (writeNode ptr node base r)).
Proof.
  rewrite writePathsToMap_unfold.
  destruct (writeChildren ptr base 0 (children node) (writeNode ptr node base r)).
  simpl. repeat split.
Qed.

Lemma writeChildren_nth (P : Platform) (ptr : NodePtr) (base : string)
    (cs : list SourceNode) :
  forall (i j : nat) (r : WorkspaceFileResolver P),
    match nth_error cs j with
    | Some child =>
        exists r' : WorkspaceFileResolver P,
          nth_error (fst (writeChildren ptr base i cs r)) j
          = Some (fst (writePathsToMap (ptr ++ [i + j])%list (Some ptr) child
                         (base +:+ "/" +:+ name child) r'))
    | None => nth_error (fst (writeChildren ptr base i cs r)) j = None
    end.
Proof.
  induction cs as [|child rest IH]; intros i j r.
  - now destruct j.
  - simpl.
    destruct (writePathsToMap (ptr ++ [i])%list (Some ptr) child
                (base +:+ "/" +:+ name child) r) as [child' r1] eqn:Hchild.
    specialize (IH (S i)).
    destruct j as [|j]; simpl.
    + destruct (writeChildren ptr base (S i) rest r1). simpl.
      exists r. rewrite Nat.add_0_r. now rewrite Hchild.
    + specialize (IH j r1).
      destruct (writeChildren ptr base (S i) rest r1) as [rest' r2]. simpl in *.
      replace (i + S j) with (S i + j) by lia. exact IH.
Qed.

Lemma writeChildren_length (P : Platform) (ptr : NodePtr) (base : string)
    (cs : list SourceNode) :
  forall (i : nat) (r : WorkspaceFileResolver P),
    length (fst (writeChildren ptr base i cs r)) = length cs.
Proof.
  induction cs as [|child rest IH]; intros i r; simpl.
  - reflexivity.
  - destruct (writePathsToMap (ptr ++ [i])%list (Some ptr) child
                (base +:+ "/" +:+ name child) r) as [child' r1].
    specialize (IH (S i) r1).
    destruct (writeChildren ptr base (S i) rest r1). simpl in *. now rewrite IH.
Qed.

(** The walk keeps the shape and the labels of the tree. *)
Lemma writePathsToMap_node_at (P : Platform) (q : NodePtr) :
  forall (node : SourceNode) (ptr : NodePtr) (par : option NodePtr)
         (base : string) (r : WorkspaceFileResolver P),
    match node_at node q with
    | Some n =>
        exists n', node_at (fst (writePathsToMap ptr par node base r)) q = Some n' /\
                   name n' = name n /\ className n' = className n /\
                   getScriptFilePath n' = getScriptFilePath n /\
                   length (children n') = length (children n)
    | None => node_at (fst (writePathsToMap ptr par node base r)) q = None
    end.
Proof.
  induction q as [|i q IH]; intros node ptr par base r.
  - simpl. eexists. split; [reflexivity|].
    destruct (writePathsToMap_fields P ptr par node base r)
      as (Hn & Hc & Hs & _ & _ & Hchildren).
    repeat split; try assumption.
    rewrite Hchildren. apply writeChildren_length.
  - simpl.
    destruct (writePathsToMap_fields P ptr par node base r)
      as (_ & _ & _ & _ & _ & Hchildren).
    rewrite Hchildren.
    pose proof (writeChildren_nth P ptr base (children node) 0 i
                  (writeNode ptr node base r)) as Hnth.
    destruct (nth_error (children node) i) as [child|].
    + destruct Hnth as [r' ->]. apply IH.
    + now rewrite Hnth.
Qed.

(** The walk assigns the virtual paths and the parent references. *)
Lemma writePathsToMap_paths (P : Platform) (q : NodePtr) :
  forall (node : SourceNode) (ptr : NodePtr) (par : option NodePtr)
         (base : string) (r : WorkspaceFileResolver P) (n : SourceNode),
    node_at (fst (writePathsToMap ptr par node base r)) q = Some n ->
    forall i child,
      nth_error (children n) i = Some child ->
      virtualPath child = virtualPath n +:+ "/" +:+ name child /\
      parent child = Some (ptr ++ q)%list.
Proof.
  induction q as [|i q IH]; intros node ptr par base r n Hat.
  - simpl in Hat. injection Hat as <-.
    destruct (writePathsToMap_fields P ptr par node base r)
      as (_ & _ & _ & Hpath & _ & Hchildren).
    intros i child. rewrite Hchildren, Hpath, app_nil_r.
    pose proof (writeChildren_nth P ptr base (children node) 0 i
                  (writeNode ptr node base r)) as Hnth.
    destruct (nth_error (children node) i) as [c|].
    + destruct Hnth as [r' ->]. intros [= <-]. change (0 + i) with i.
      destruct (writePathsToMap_fields P (ptr ++ [i])%list (Some ptr) c
                  (base +:+ "/" +:+ name c) r')
        as (Hn & _ & _ & Hp & Hpar & _).
      now rewrite Hn, Hp, Hpar.
    + rewrite Hnth. discriminate.
  - simpl in Hat.
    destruct (writePathsToMap_fields P ptr par node base r)
      as (_ & _ & _ & _ & _ & Hchildren).
    rewrite Hchildren in Hat.
    pose proof (writeChildren_nth P ptr base (children node) 0 i
                  (writeNode ptr node base r)) as Hnth.
    destruct (nth_error (children node) i) as [c|].
    + destruct Hnth as [r' Hnth]. rewrite Hnth in Hat.
      intros i' child Hchild.
      destruct (IH _ _ _ _ _ _ Hat i' child Hchild) as [Hp Hpar].
      split; [exact Hp|]. now rewrite Hpar, <- app_assoc.
    + rewrite Hnth in Hat. discriminate.
Qed.

(** The tree that [updateSourceMap] walks: the parsed tree, with the
    plugin information merged into a [DataModel]. *)
Lemma updateSourceMap_walk (P : Platform) (contents : string)
    (r : WorkspaceFileResolver P) (j : SourceNode) :
  parseSourceMap P contents = Some j ->
  let root := match pluginInfo r with
              | Some info => if String.eqb (className j) "DataModel"
                             then mutateWithPluginInfo P info j else j
              | None => j
              end in
  let base := if String.eqb (className root) "DataModel"
              then "game" else "ProjectRoot" in
  let r0 := MkResolver (rootUri r) (client r) (pluginInfo r) (Some root) ∅ ∅ in
  updateSourceMap contents r
  = set_rootSourceNode
      (Some (fst (writePathsToMap [] (parent root) root base r0)))
      (snd (writePathsToMap [] (parent root) root base r0)).
Proof.
  intros Hparse root base r0. unfold updateSourceMap. rewrite Hparse.
  change ((let '(root', r') := writePathsToMap [] (parent root) root base r0 in
           set_rootSourceNode (Some root') r')
          = set_rootSourceNode
              (Some (fst (writePathsToMap [] (parent root) root base r0)))
              (snd (writePathsToMap [] (parent root) root base r0))).
  now destruct (writePathsToMap [] (parent root) root base r0).
Qed.

(** X3: after a rebuild from a sourcemap that parses, the virtual path of
    the root is [game] for a [DataModel] and [ProjectRoot] otherwise, the
    virtual path of every other node is the virtual path of its parent,
    a slash and its own name, and its parent reference is the pointer of
    its parent. *)
Theorem rebuild_virtual_paths (P : Platform) (contents : string)
    (r : WorkspaceFileResolver P) (j : SourceNode) :
  parseSourceMap P contents = Some j ->
  (exists root,
     deref (updateSourceMap contents r) [] = Some root /\
     virtualPath root = if String.eqb (className root) "DataModel"
                        then "game" else "ProjectRoot") /\
  (forall ptr node i child,
     deref (updateSourceMap contents r) ptr = Some node ->
     nth_error (children node) i = Some child ->
     deref (updateSourceMap contents r) (ptr ++ [i])%list = Some child /\
     virtualPath child = virtualPath node +:+ "/" +:+ name child /\
     parent child = Some ptr).
Proof.
  intros Hparse. rewrite (updateSourceMap_walk P contents r j Hparse).
  set (root := match pluginInfo r with
               | Some info => if String.eqb (className j) "DataModel"
                              then mutateWithPluginInfo P info j else j
               | None => j
               end).
  set (base := if String.eqb (className root) "DataModel"
               then "game" else "ProjectRoot").
  set (r0 := MkResolver _ _ _ _ _ _).
  unfold deref. simpl. split.
  - eexists. split; [reflexivity|].
    destruct (writePathsToMap_fields P [] (parent root) root base r0)
      as (_ & -> & _ & -> & _). reflexivity.
  - intros ptr node i child Hat Hchild. split.
    + revert Hat. generalize (fst (writePathsToMap [] (parent root) root base r0)).
      induction ptr as [|k ptr IH]; intros n Hat; simpl in *.
      * injection Hat as ->. now rewrite Hchild.
      * destruct (nth_error (children n) k); [now apply IH|discriminate].
    + exact (writePathsToMap_paths P ptr root [] (parent root) base r0 node Hat
               i child Hchild).
Qed.

Lemma rebuild_virtual_paths_witness :
  let r := updateSourceMap "scenarioA" (Example.initial Example.posix None) in
  exists root child,
    deref r [] = Some root /\ virtualPath root = "game" /\
    deref r [0] = Some child /\
    virtualPath child = "game/ReplicatedStorage" /\ parent child = Some [].
Proof.
  intros r.
  destruct (rebuild_virtual_paths Example.posix "scenarioA"
              (Example.initial Example.posix None) Example.scenarioA eq_refl)
    as [(root & Hroot & Hbase) Hchildren].
  assert (Hvalue : deref r []
            = Some (MkSourceNode "Root" "DataModel" None "game" None
                      [MkSourceNode "ReplicatedStorage" "Folder"
                         (Some "src/shared/init.luau")
                         "game/ReplicatedStorage" (Some []) []]))
    by (vm_compute; reflexivity).
  destruct (Hchildren [] _ 0 _ Hvalue eq_refl) as (Hchild & Hpath & Hparent).
  eexists _, _. split; [exact Hvalue|]. split; [reflexivity|].
  split; [exact Hchild|]. split; [exact Hpath|exact Hparent].
Defined.

(** X4: a rebuild without plugin information keeps the shape and the
    labels of the parsed tree: at every pointer the rebuilt tree has a node
    exactly when the parsed tree has one, with the same name, class name,
    script file path and number of children. *)
Theorem rebuild_keeps_labels (P : Platform) (contents : string)
    (r : WorkspaceFileResolver P) (j : SourceNode) (ptr : NodePtr) :
  parseSourceMap P contents = Some j ->
  pluginInfo r = None ->
  match node_at j ptr with
  | Some n =>
      exists n', deref (updateSourceMap contents r) ptr = Some n' /\
                 name n' = name n /\ className n' = className n /\
                 getScriptFilePath n' = getScriptFilePath n /\
                 length (children n') = length (children n)
  | None => deref (updateSourceMap contents r) ptr = None
  end.
Proof.
  intros Hparse Hplugin. rewrite (updateSourceMap_walk P contents r j Hparse).
  rewrite Hplugin. unfold deref. simpl. apply writePathsToMap_node_at.
Qed.

Lemma rebuild_keeps_labels_witness :
  exists n',
    deref (updateSourceMap "twins" (Example.initial Example.posix None)) [1] = Some n' /\
    name n' = "A" /\ className n' = "ModuleScript" /\
    getScriptFilePath n' = Some "src/A.luau" /\ length (children n') = 0.
Proof.
  exact (rebuild_keeps_labels Example.posix "twins"
           (Example.initial Example.posix None) Example.twins [1] eq_refl eq_refl).
Defined.

(** ** The indexes and the tree *)

(** After a rebuild from a sourcemap that parses, every entry of an index
    points to a node filed under its key, and every node is filed under
    each of its keys. *)
Lemma updateSourceMap_indexes (P : Platform) (contents : string)
    (r : WorkspaceFileResolver P) (j : SourceNode) :
  parseSourceMap P contents = Some j ->
  let r' := updateSourceMap contents r in
  (forall k ptr, virtualPathsToSourceNodes r' !! k = Some ptr ->
     exists node, deref r' ptr = Some node /\ virtualPath node = k) /\
  (forall ptr node, deref r' ptr = Some node ->
     is_Some (virtualPathsToSourceNodes r' !! virtualPath node)) /\
  (forall k ptr, realPathsToSourceNodes r' !! k = Some ptr ->
     exists node realPath,
       deref r' ptr = Some node /\ getScriptFilePath node = Some realPath /\
       realPathKey P (rootUri r) realPath = k) /\
  (forall ptr node realPath,
     deref r' ptr = Some node -> getScriptFilePath node = Some realPath ->
     is_Some (realPathsToSourceNodes r' !! realPathKey P (rootUri r) realPath)).
Proof.
  intros Hparse r'. subst r'. rewrite (updateSourceMap_walk P contents r j Hparse).
  set (root := match pluginInfo r with
               | Some info => if String.eqb (className j) "DataModel"
                              then mutateWithPluginInfo P info j else j
               | None => j
               end).
  set (base := if String.eqb (className root) "DataModel"
               then "game" else "ProjectRoot").
  set (r0 := MkResolver (rootUri r) (client r) (pluginInfo r) (Some root) ∅ ∅).
  pose proof (virtualPaths_walked P root [] (parent root) base r0)
    as (_ & Hvs & Hvc & _).
  pose proof (realPaths_walked P root [] (parent root) base r0)
    as (_ & Hrs & Hrc & _).
  unfold deref. simpl in *. repeat split.
  - intros k ptr Hk. destruct (Hvs k ptr Hk) as [Hold|(q & n & -> & Hat & Hkey)].
    + rewrite lookup_empty in Hold. discriminate.
    + exists n. split; assumption.
  - intros ptr node Hat. now apply (Hvc ptr node).
  - intros k ptr Hk.
    destruct (Hrs k ptr Hk) as [Hold|(q & n & -> & Hat & realPath & Hscript & Hkey)].
    + rewrite lookup_empty in Hold. discriminate.
    + exists n, realPath. repeat split; assumption.
  - intros ptr node realPath Hat Hscript. apply (Hrc ptr node); [exact Hat|].
    exists realPath. split; [exact Hscript|reflexivity].
Qed.

(** X1: whatever the sourcemap, after [updateSourceMap] no index entry
    dangles: an entry of the virtual-path index points to a node of the
    tree whose virtual path is the key, and an entry of the real-path
    index points to a node of the tree with a script file path filed
    under the key. *)
Theorem rebuild_index_entries_sound (P : Platform) (contents : string)
    (r : WorkspaceFileResolver P) :
  (forall k ptr,
     getSourceNodeFromVirtualPath (updateSourceMap contents r) k = Some ptr ->
     exists node, deref (updateSourceMap contents r) ptr = Some node /\
                  virtualPath node = k) /\
  (forall k ptr,
     realPathsToSourceNodes (updateSourceMap contents r) !! k = Some ptr ->
     exists node realPath,
       deref (updateSourceMap contents r) ptr = Some node /\
       getScriptFilePath node = Some realPath /\
       realPathKey P (rootUri r) realPath = k).
Proof.
  destruct (parseSourceMap P contents) as [j|] eqn:Hparse.
  - destruct (updateSourceMap_indexes P contents r j Hparse) as (Hv & _ & Hr & _).
    split; assumption.
  - unfold updateSourceMap, getSourceNodeFromVirtualPath. rewrite Hparse. simpl.
    split; intros k ptr Hk; rewrite lookup_empty in Hk; discriminate.
Qed.

(** X2: after a rebuild from a sourcemap that parses, every node of the
    tree is indexed: the lookup of its virtual path returns a node of the
    tree with that virtual path, and if it has a script file path the
    real-path index holds, under the key of that path, a node whose script
    file path has the same key. *)
Theorem rebuild_every_node_indexed (P : Platform) (contents : string)
    (r : WorkspaceFileResolver P) (j : SourceNode)
    (ptr : NodePtr) (node : SourceNode) :
  parseSourceMap P contents = Some j ->
  deref (updateSourceMap contents r) ptr = Some node ->
  (exists ptr' node',
     getSourceNodeFromVirtualPath (updateSourceMap contents r) (virtualPath node)
     = Some ptr' /\
     deref (updateSourceMap contents r) ptr' = Some node' /\
     virtualPath node' = virtualPath node) /\
  (forall realPath,
     getScriptFilePath node = Some realPath ->
     exists ptr' node' realPath',
       realPathsToSourceNodes (updateSourceMap contents r)
         !! realPathKey P (rootUri r) realPath = Some ptr' /\
       deref (updateSourceMap contents r) ptr' = Some node' /\
       getScriptFilePath node' = Some realPath' /\
       realPathKey P (rootUri r) realPath' = realPathKey P (rootUri r) realPath).
Proof.
  intros Hparse Hnode.
  destruct (updateSourceMap_indexes P contents r j Hparse) as (Hvs & Hvc & Hrs & Hrc).
  split.
  - destruct (Hvc ptr node Hnode) as [ptr' Hptr'].
    destruct (Hvs _ _ Hptr') as (node' & Hnode' & Hpath).
    now exists ptr', node'.
  - intros realPath Hscript.
    destruct (Hrc ptr node realPath Hnode Hscript) as [ptr' Hptr'].
    destruct (Hrs _ _ Hptr') as (node' & realPath' & Hnode' & Hscript' & Hkey).
    now exists ptr', node', realPath'.
Qed.

Lemma rebuild_every_node_indexed_witness :
  let r := updateSourceMap "twins" (Example.initial Example.posix None) in
  exists ptr' node',
    getSourceNodeFromVirtualPath r "game/A" = Some ptr' /\
    deref r ptr' = Some node' /\ virtualPath node' = "game/A".
Proof.
  intros r.
  assert (Hnode : deref r [0]
                  = Some (MkSourceNode "A" "Folder" None "game/A" (Some []) []))
    by (vm_compute; reflexivity).
  exact (proj1 (rebuild_every_node_indexed Example.posix "twins"
                  (Example.initial Example.posix None) Example.twins [0] _
                  eq_refl Hnode)).
Defined.

(** ** What a rebuild leaves alone, and rebuilding twice *)

Lemma writeChildren_preserves (P : Platform)
    (Inv : WorkspaceFileResolver P -> Prop) (ptr : NodePtr) (base : string)
    (cs : list SourceNode) :
  Forall (fun child => forall ptr par base r,
            Inv r -> Inv (snd (writePathsToMap ptr par child base r))) cs ->
  forall i r, Inv r -> Inv (snd (writeChildren ptr base i cs r)).
Proof.
  induction 1 as [|child rest Hchild _ IH]; intros i r Hr; simpl.
  - exact Hr.
  - specialize (Hchild (ptr ++ [i])%list (Some ptr) (base +:+ "/" +:+ name child) r Hr).
    destruct (writePathsToMap (ptr ++ [i])%list (Some ptr) child
                (base +:+ "/" +:+ name child) r) as [child' r1].
    specialize (IH (S i) r1 Hchild).
    now destruct (writeChildren ptr base (S i) rest r1).
Qed.

Lemma writePathsToMap_preserves (P : Platform)
    (Inv : WorkspaceFileResolver P -> Prop) :
  (forall ptr node base r, Inv r -> Inv (writeNode ptr node base r)) ->
  forall node ptr par base r,
    Inv r -> Inv (snd (writePathsToMap ptr par node base r)).
Proof.
  intros Hwrite node.
  induction node as [node IH] using SourceNode_nested_ind.
  intros ptr par base r Hr. rewrite writePathsToMap_unfold.
  pose proof (writeChildren_preserves P Inv ptr base (children node) IH 0
                (writeNode ptr node base r) (Hwrite _ _ _ _ Hr)) as Hloop.
  now destruct (writeChildren ptr base 0 (children node) (writeNode ptr node base r)).
Qed.

(** [updateSourceMap] changes neither the workspace root, nor the client,
    nor the plugin information. *)
Lemma updateSourceMap_frame (P : Platform) (contents : string)
    (r : WorkspaceFileResolver P) :
  rootUri (updateSourceMap contents r) = rootUri r /\
  client (updateSourceMap contents r) = client r /\
  pluginInfo (updateSourceMap contents r) = pluginInfo r.
Proof.
  destruct (parseSourceMap P contents) as [j|] eqn:Hparse.
  - rewrite (updateSourceMap_walk P contents r j Hparse).
    apply (writePathsToMap_preserves P
             (fun r' => rootUri r' = rootUri r /\ client r' = client r /\
                        pluginInfo r' = pluginInfo r)).
    + intros ptr node base r1 Hr1. unfold writeNode.
      now destruct (getScriptFilePath node).
    + repeat split.
  - unfold updateSourceMap. rewrite Hparse. repeat split.
Qed.

(** X5: rebuilding twice from the same sourcemap gives the resolver that
    rebuilding once gives, whether the sourcemap parses or not. *)
Theorem updateSourceMap_idempotent (P : Platform) (contents : string)
    (r : WorkspaceFileResolver P) :
  updateSourceMap contents (updateSourceMap contents r)
  = updateSourceMap contents r.
Proof.
  destruct (updateSourceMap_frame P contents r) as (Hroot & Hclient & Hplugin).
  destruct (parseSourceMap P contents) as [j|] eqn:Hparse.
  - rewrite (updateSourceMap_walk P contents (updateSourceMap contents r) j Hparse).
    rewrite Hroot, Hclient, Hplugin.
    now rewrite <- (updateSourceMap_walk P contents r j Hparse).
  - unfold updateSourceMap. rewrite Hparse. reflexivity.
Qed.

(** ** From virtual path to real path and back *)

(** X6: after a rebuild from a sourcemap that parses, take a node with a
    script file path whose join with the workspace root can be
    canonicalized, such that no other node has its virtual path or is
    filed under its real-path key, its virtual path being classified as
    virtual and its real path as real.  Then the virtual path resolves to
    the real path, the real path resolves back to the virtual path, a
    [file] uri of the real path gets the virtual path as module name, and
    the name shown to people is the relative real path followed by the
    virtual path in brackets. *)
Theorem virtual_real_round_trip (P : Platform) (H : Host) (contents : string)
    (r : WorkspaceFileResolver P) (j : SourceNode) (ptr : NodePtr)
    (node : SourceNode) (realPath canonicalName : string) :
  let r' := updateSourceMap contents r in
  let real := path_join (rootUri r) realPath in
  parseSourceMap P contents = Some j ->
  deref r' ptr = Some node ->
  getScriptFilePath node = Some realPath ->
  weakly_canonical P real = Some canonicalName ->
  isVirtualPath P (virtualPath node) = true ->
  isVirtualPath P real = false ->
  (forall ptr' node',
     deref r' ptr' = Some node' -> virtualPath node' = virtualPath node ->
     ptr' = ptr) ->
  (forall ptr' node' realPath',
     deref r' ptr' = Some node' -> getScriptFilePath node' = Some realPath' ->
     realPathKey P (rootUri r) realPath' = canonicalName -> ptr' = ptr) ->
  resolveToRealPath r' (virtualPath node) = Some real /\
  resolveToVirtualPath r' real = Some (virtualPath node) /\
  (forall uri, scheme uri = "file" -> fsPath uri = real ->
     getModuleName r' uri = virtualPath node) /\
  getHumanReadableModuleName H r' (virtualPath node)
  = relative_path H real +:+ " [" +:+ virtualPath node +:+ "]".
Proof.
  intros r' real Hparse Hnode Hscript Hcanon Hvirtual Hreal Hupath Hukey.
  destruct (updateSourceMap_indexes P contents r j Hparse) as (Hvs & Hvc & Hrs & Hrc).
  destruct (updateSourceMap_frame P contents r) as (Hroot & _ & _).
  fold r' in Hvs, Hvc, Hrs, Hrc, Hroot.
  assert (Hkey : realPathKey P (rootUri r) realPath = canonicalName).
  { unfold realPathKey. fold real. now rewrite Hcanon. }
  assert (Hv : virtualPathsToSourceNodes r' !! virtualPath node = Some ptr).
  { destruct (Hvc ptr node Hnode) as [ptr' Hptr']. rewrite Hptr'. f_equal.
    destruct (Hvs _ _ Hptr') as (node' & Hnode' & Hpath).
    exact (Hupath ptr' node' Hnode' Hpath). }
  assert (Hr : realPathsToSourceNodes r' !! canonicalName = Some ptr).
  { destruct (Hrc ptr node realPath Hnode Hscript) as [ptr' Hptr'].
    rewrite Hkey in Hptr'. rewrite Hptr'. f_equal.
    destruct (Hrs _ _ Hptr') as (node' & realPath' & Hnode' & Hscript' & Hkey').
    exact (Hukey ptr' node' realPath' Hnode' Hscript' Hkey'). }
  assert (Hto_real : resolveToRealPath r' (virtualPath node) = Some real).
  { unfold resolveToRealPath, getSourceNodeFromVirtualPath,
      getRealPathFromSourceNode.
    rewrite Hvirtual, Hv, Hnode. simpl. now rewrite Hscript, Hroot. }
  assert (Hto_virtual : resolveToVirtualPath r' real = Some (virtualPath node)).
  { unfold resolveToVirtualPath, getSourceNodeFromRealPath,
      getVirtualPathFromSourceNode.
    rewrite Hreal, Hcanon, Hr, Hnode. reflexivity. }
  repeat split; try assumption.
  - intros uri Hscheme Hpath. unfold getModuleName.
    now rewrite Hscheme, Hpath, Hto_virtual.
  - unfold getHumanReadableModuleName. now rewrite Hvirtual, Hto_real.
Qed.

Lemma virtual_real_round_trip_witness :
  let r := updateSourceMap "scenarioA" (Example.initial Example.posix None) in
  resolveToRealPath r "game/ReplicatedStorage" = Some "/ws/src/shared/init.luau" /\
  resolveToVirtualPath r "/ws/src/shared/init.luau" = Some "game/ReplicatedStorage".
Proof.
  intros r.
  assert (Hnode : deref r [0]
                  = Some (MkSourceNode "ReplicatedStorage" "Folder"
                            (Some "src/shared/init.luau")
                            "game/ReplicatedStorage" (Some []) []))
    by (vm_compute; reflexivity).
  assert (Hnodes : forall ptr' node',
             deref r ptr' = Some node' ->
             (ptr' = [] /\ virtualPath node' = "game" /\ getScriptFilePath node' = None)
             \/ ptr' = [0]).
  { intros [|[|[|i]] [|[|i'] rest]] node' Hat; vm_compute in Hat;
      try discriminate; [left|right; reflexivity].
    injection Hat as <-. repeat split. }
  destruct (virtual_real_round_trip Example.posix ExampleHost.host "scenarioA"
              (Example.initial Example.posix None) Example.scenarioA [0] _
              "src/shared/init.luau" "/ws/src/shared/init.luau"
              eq_refl Hnode eq_refl eq_refl eq_refl eq_refl)
    as (Hreal & Hvirtual & _).
  - intros ptr' node' Hat Hpath.
    destruct (Hnodes ptr' node' Hat) as [(_ & Hgame & _)| ->]; [|reflexivity].
    rewrite Hgame in Hpath. discriminate.
  - intros ptr' node' realPath' Hat Hscript _.
    destruct (Hnodes ptr' node' Hat) as [(_ & _ & Hnone)| ->]; [|reflexivity].
    rewrite Hnone in Hscript. discriminate.
  - split; assumption.
Defined.

(** ** More on the require resolver *)

(** X7: without a context only a string literal and the global [game]
    resolve; no navigation from an absent context has a result. *)
Theorem resolveModule_without_context (P : Platform)
    (r : WorkspaceFileResolver P) (node : Luau.AstExpr) (m : Luau.ModuleInfo) :
  resolveModule r None node = Returns (Some m) ->
  (exists requiredString, node = Luau.AstExprConstantString requiredString) \/
  (node = Luau.AstExprGlobal "game" /\ m = moduleInfo "game").
Proof.
  destruct node as [s|g|e i|e i|func args self|]; simpl; intros Hres.
  - left. eauto.
  - right. destruct (String.eqb g "game") eqn:Hgame.
    + apply String.eqb_eq in Hgame. subst g. injection Hres as <-. now split.
    + destruct (String.eqb g "script"); discriminate.
  - discriminate.
  - destruct i; discriminate.
  - destruct self; [|discriminate].
    destruct args as [|[index| | | | |] rest]; discriminate.
  - discriminate.
Qed.

Lemma resolveModule_without_context_witness :
  (exists requiredString,
     Luau.AstExprGlobal "game" = Luau.AstExprConstantString requiredString) \/
  (Luau.AstExprGlobal "game" = Luau.AstExprGlobal "game" /\
   moduleInfo "game" = moduleInfo "game").
Proof.
  exact (resolveModule_without_context Example.posix
           (Example.initial Example.posix None) (Luau.AstExprGlobal "game")
           (moduleInfo "game") eq_refl).
Defined.

(** X8: a method call of [GetService] with a string literal resolves to
    the service below [game] when the context is [game], with the optional
    flag cleared, and has no result for every other context. *)
Theorem get_service_only_on_game (P : Platform) (r : WorkspaceFileResolver P)
    (c : Luau.ModuleInfo) (target : Luau.AstExpr) (service : string)
    (rest : list Luau.AstExpr) :
  (Luau.name c = "game" ->
   resolveModule r (Some c)
     (Luau.AstExprCall (Luau.AstExprIndexName target "GetService")
                       (Luau.AstExprConstantString service :: rest) true)
   = Returns (Some (Luau.MkModuleInfo ("game/" +:+ service) false))) /\
  (Luau.name c <> "game" ->
   resolveModule r (Some c)
     (Luau.AstExprCall (Luau.AstExprIndexName target "GetService")
                       (Luau.AstExprConstantString service :: rest) true)
   = Returns None).
Proof.
  split; intros Hname; simpl.
  - now rewrite Hname.
  - apply String.eqb_neq in Hname. now rewrite Hname.
Qed.

Lemma get_service_only_on_game_witness :
  resolveModule (Example.initial Example.posix None)
    (Some (Luau.MkModuleInfo "game" true))
    (Luau.AstExprCall
       (Luau.AstExprIndexName (Luau.AstExprGlobal "game") "GetService")
       [Luau.AstExprConstantString "ReplicatedStorage"] true)
  = Returns (Some (Luau.MkModuleInfo "game/ReplicatedStorage" false)) /\
  resolveModule (Example.initial Example.posix None)
    (Some (moduleInfo "game/Workspace"))
    (Luau.AstExprCall
       (Luau.AstExprIndexName (Luau.AstExprGlobal "script") "GetService")
       [Luau.AstExprConstantString "ReplicatedStorage"] true)
  = Returns None.
Proof.
  split.
  - apply (proj1 (get_service_only_on_game Example.posix _
                    (Luau.MkModuleInfo "game" true) _ _ _)). reflexivity.
  - apply (proj2 (get_service_only_on_game Example.posix _
                    (moduleInfo "game/Workspace") _ _ _)). discriminate.
Defined.

(** X9: the optional flag of a result.  Navigation by name, by index and
    by method call hands the flag of the context on; a string literal and
    a global give a result that is not optional, and so does [GetService],
    the one method call that does not hand the flag on. *)
Theorem resolveModule_optional (P : Platform) (r : WorkspaceFileResolver P)
    (c : Luau.ModuleInfo) (node : Luau.AstExpr) (m : Luau.ModuleInfo) :
  resolveModule r (Some c) node = Returns (Some m) ->
  match node with
  | Luau.AstExprConstantString _ | Luau.AstExprGlobal _ => Luau.optional m = false
  | Luau.AstExprCall (Luau.AstExprIndexName _ f) _ _ =>
      if String.eqb f "GetService" && String.eqb (Luau.name c) "game"
      then Luau.optional m = false
      else Luau.optional m = Luau.optional c
  | _ => Luau.optional m = Luau.optional c
  end.
Proof.
  destruct node as [s|g|e i|e i|func args self|]; simpl; intros Hres.
  - change (resolveModule r (Some c) (Luau.AstExprConstantString s)
            = Returns (Some m)) in Hres.
    destruct (resolveModule_string_outcome P r (Some c) s) as [[name Hname]|Hthrow];
      rewrite Hres in *; [now injection Hname as ->|discriminate].
  - destruct (String.eqb g "game"); [now injection Hres as <-|].
    destruct (String.eqb g "script"); [|discriminate].
    destruct (resolveToVirtualPath r (Luau.name c)); [|discriminate].
    now injection Hres as <-.
  - destruct (String.eqb i "Parent"); [|now injection Hres as <-].
    destruct (getParentPath P (Luau.name c)); now injection Hres as <-.
  - destruct i; try discriminate. now injection Hres as <-.
  - destruct self; [|discriminate].
    destruct args as [|[index| | | | |] rest]; try discriminate.
    destruct func as [ | |e f| | |]; try discriminate.
    destruct (String.eqb f "GetService" && String.eqb (Luau.name c) "game");
      [now injection Hres as <-|].
    destruct (String.eqb f "WaitForChild"
              || String.eqb f "FindFirstChild" && Nat.eqb (length (Luau.AstExprConstantString index :: rest)) 1);
      [now injection Hres as <-|].
    destruct (String.eqb f "FindFirstAncestor"); [|discriminate].
    destruct (getAncestorPath P (Luau.name c) index); [|discriminate].
    now injection Hres as <-.
  - discriminate.
Qed.

Lemma resolveModule_optional_witness :
  Luau.optional (Luau.MkModuleInfo "game/A/B" true) = true.
Proof.
  exact (resolveModule_optional Example.posix (Example.initial Example.posix None)
           (Luau.MkModuleInfo "game/A" true)
           (Luau.AstExprIndexName (Luau.AstExprGlobal "script") "B")
           (Luau.MkModuleInfo "game/A/B" true) eq_refl).
Defined.

(** X10: unless the client asks for requires relative to the file, a
    string require does not depend on the context it is resolved in. *)
Theorem string_require_ignores_context (P : Platform)
    (r : WorkspaceFileResolver P) (context : option Luau.ModuleInfo)
    (requiredString : string) :
  (forall config, client r = Some config ->
                  require_mode config = RelativeToWorkspaceRoot) ->
  resolveModule r context (Luau.AstExprConstantString requiredString)
  = resolveModule r None (Luau.AstExprConstantString requiredString).
Proof.
  intros Hmode. simpl. unfold getRequireBasePath.
  destruct (client r) as [config|]; [|reflexivity].
  now rewrite (Hmode config eq_refl).
Qed.

Lemma string_require_ignores_context_witness :
  resolveModule (Example.initial Example.posix None)
    (Some (moduleInfo "/ws/src/shared/init.luau"))
    (Luau.AstExprConstantString "Modules/Foo")
  = resolveModule (Example.initial Example.posix None) None
      (Luau.AstExprConstantString "Modules/Foo").
Proof.
  apply (string_require_ignores_context Example.posix). discriminate.
Defined.

(** X11: a file alias that matches the whole required string decides the
    result alone: the workspace root, the require mode, the context and
    the directory aliases do not matter. *)
Theorem file_alias_decides (P : Platform) (r1 r2 : WorkspaceFileResolver P)
    (config1 config2 : ClientConfiguration)
    (context1 context2 : option Luau.ModuleInfo) (requiredString target : string) :
  client r1 = Some config1 -> client r2 = Some config2 ->
  require_fileAliases config1 !! requiredString = Some target ->
  require_fileAliases config2 !! requiredString = Some target ->
  resolveModule r1 context1 (Luau.AstExprConstantString requiredString)
  = resolveModule r2 context2 (Luau.AstExprConstantString requiredString).
Proof.
  intros Hc1 Hc2 Ha1 Ha2. simpl. unfold requireOverride.
  now rewrite Hc1, Hc2, Ha1, Ha2.
Qed.

Lemma file_alias_decides_witness :
  let config1 := {| require_mode := RelativeToWorkspaceRoot;
                    require_fileAliases := {[ "@main" := "/ws/src/main" ]};
                    require_directoryAliases := [] |} in
  let config2 := {| require_mode := RelativeToFile;
                    require_fileAliases := {[ "@main" := "/ws/src/main" ]};
                    require_directoryAliases := [("@", "/elsewhere")] |} in
  resolveModule (Example.initial Example.posix (Some config1)) None
    (Luau.AstExprConstantString "@main")
  = resolveModule (Example.initial Example.posix (Some config2))
      (Some (moduleInfo "/ws/a/b.luau")) (Luau.AstExprConstantString "@main").
Proof.
  intros config1 config2.
  apply (file_alias_decides Example.posix _ _ config1 config2 _ _ "@main"
           "/ws/src/main"); reflexivity.
Defined.

(** X12: [resolveDirectoryAlias] returns no path exactly when no alias is
    a prefix of the string.  When some alias is a prefix it returns a
    path, unless [includeExtension] is set and [exists] throws, in which
    case the call throws; without [includeExtension] it always returns a
    path. *)
Theorem resolveDirectoryAlias_result (P : Platform)
    (aliases : list (string * string)) (str : string) (includeExtension : bool) :
  (resolveDirectoryAlias (P:=P) aliases str includeExtension = Returns None
   <-> Forall (λ entry, startsWith str (fst entry) = false) aliases) /\
  (Exists (λ entry, startsWith str (fst entry) = true) aliases ->
   (exists filePath,
      resolveDirectoryAlias (P:=P) aliases str includeExtension
      = Returns (Some filePath)) \/
   (includeExtension = true /\
    resolveDirectoryAlias (P:=P) aliases str includeExtension = FilesystemError)) /\
  (Exists (λ entry, startsWith str (fst entry) = true) aliases ->
   exists filePath,
     resolveDirectoryAlias (P:=P) aliases str false = Returns (Some filePath)).
Proof.
  split; [|split].
  - split; [|apply resolveDirectoryAlias_no_match].
    induction aliases as [|[alias path] rest IH]; simpl; [constructor|].
    destruct (startsWith str alias) eqn:Halias.
    + destruct (includeExtension && negb (has_extension P _)); [|discriminate].
      destruct (fs_exists P _) as [[|]|]; discriminate.
    + intros Hrest. constructor; [exact Halias|now apply IH].
  - induction aliases as [|[alias path] rest IH]; simpl;
      intros Hex; [inversion Hex|].
    destruct (startsWith str alias) eqn:Halias.
    + destruct includeExtension; simpl; [|eauto].
      destruct (has_extension P _); simpl; [eauto|].
      destruct (fs_exists P _) as [[|]|]; eauto.
    + apply IH. inversion Hex as [? ? Hhead|]; subst; [|assumption].
      simpl in Hhead. congruence.
  - induction aliases as [|[alias path] rest IH]; simpl;
      intros Hex; [inversion Hex|].
    destruct (startsWith str alias) eqn:Halias; [eauto|].
    apply IH. inversion Hex as [? ? Hhead|]; subst; [|assumption].
    simpl in Hhead. congruence.
Qed.

Lemma resolveDirectoryAlias_result_witness :
  exists filePath,
    resolveDirectoryAlias (P:=Example.unreadable)
      [("@lib/", "/ws/lib"); ("@pkg/", "/ws/Packages")] "@pkg/Button" false
    = Returns (Some filePath).
Proof.
  apply (resolveDirectoryAlias_result Example.unreadable
           [("@lib/", "/ws/lib"); ("@pkg/", "/ws/Packages")] "@pkg/Button" false).
  right. left. reflexivity.
Defined.

(** ** More on the configuration cascade *)

Section ConfigCacheProperties.

Variable Config : Type.
Variable defaultConfig : Config.
Variable kConfigName : string.
Variable parseConfig : string -> Config -> Config * option string.
Variable readConfigFile : Path -> option string.
Variable hasClient : bool.

Local Abbreviation readConfigRec :=
  (readConfigRec Config defaultConfig kConfigName parseConfig readConfigFile hasClient).
Local Abbreviation readConfig :=
  (readConfig Config defaultConfig kConfigName parseConfig readConfigFile hasClient).
Local Abbreviation applyConfigFile :=
  (applyConfigFile Config kConfigName parseConfig readConfigFile hasClient).
Local Abbreviation cascade :=
  (cascade Config defaultConfig kConfigName parseConfig readConfigFile).
Local Abbreviation reachable :=
  (reachable Config defaultConfig kConfigName parseConfig readConfigFile hasClient).

Lemma readConfigRec_hit (rooted : bool) (names : list string)
    (s : ConfigState Config) (cached : Config) :
  configCache Config s !! (rooted, names) = Some cached ->
  readConfigRec rooted names s = (cached, s).
Proof. intros Hhit. destruct names; simpl; now rewrite Hhit. Qed.

Lemma readConfigRec_unfold_miss (rooted : bool) (names : list string)
    (s : ConfigState Config) :
  configCache Config s !! (rooted, names) = None ->
  readConfigRec rooted names s
  = let '(result, s1) :=
        (match names return Config * ConfigState Config with
         | _ :: parent =>
             if has_relative_path (rooted, names) && has_parent_path (rooted, names)
             then readConfigRec rooted parent s else (defaultConfig, s)
         | [] => (defaultConfig, s)
         end) in
    let '(result, s2) := applyConfigFile (rooted, names) result s1 in
    (result, MkConfigState Config (<[(rooted, names) := result]> (configCache Config s2))
                           (configErrors Config s2) (published Config s2)).
Proof. intros Hmiss. destruct names; simpl; now rewrite Hmiss. Qed.

Lemma readConfigRec_caches (rooted : bool) (names : list string)
    (s : ConfigState Config) :
  configCache Config (snd (readConfigRec rooted names s)) !! (rooted, names)
  = Some (fst (readConfigRec rooted names s)).
Proof.
  destruct (configCache Config s !! (rooted, names)) as [cached|] eqn:Hlook.
  - now rewrite (readConfigRec_hit _ _ _ _ Hlook).
  - rewrite (readConfigRec_unfold_miss _ _ _ Hlook).
    match goal with
    | |- context [let '(_, _) := ?parent in _] => destruct parent as [base s1]
    end.
    destruct (applyConfigFile (rooted, names) base s1) as [result s2].
    simpl. apply lookup_insert_eq.
Qed.

Lemma readConfigRec_again (rooted : bool) (names : list string)
    (s : ConfigState Config) :
  readConfigRec rooted names (snd (readConfigRec rooted names s))
  = (fst (readConfigRec rooted names s), snd (readConfigRec rooted names s)).
Proof. apply readConfigRec_hit, readConfigRec_caches. Qed.

(** X13: after a config query the record of the directory is in the
    cache, and asking again returns it without changing anything: no file
    is parsed again, no diagnostic is published and no error is recorded a
    second time.  This holds for every state of the cache. *)
Theorem readConfig_cached (path : Path) (s : ConfigState Config) :
  configCache Config (snd (readConfig path s)) !! path = Some (fst (readConfig path s)) /\
  readConfig path (snd (readConfig path s))
  = (fst (readConfig path s), snd (readConfig path s)).
Proof.
  destruct path as [rooted names]. split.
  - apply readConfigRec_caches.
  - apply readConfigRec_again.
Qed.

(** X14: on a resolver that started with an empty cache, the record of a
    directory does not depend on the queries made before: a query for any
    other directory in between does not change it. *)
Theorem readConfig_stable (s : ConfigState Config) (path other : Path) :
  reachable s ->
  fst (readConfig path (snd (readConfig other s))) = fst (readConfig path s).
Proof.
  intros Hreach.
  rewrite !(readConfig_cascade Config defaultConfig kConfigName parseConfig
              readConfigFile hasClient).
  - reflexivity.
  - now apply (reachable_cache_sound Config defaultConfig kConfigName parseConfig
                 readConfigFile hasClient).
  - apply (reachable_cache_sound Config defaultConfig kConfigName parseConfig
             readConfigFile hasClient). now constructor.
Qed.

(** X15: on a resolver that started with an empty cache, a directory
    without config file that has a parent has the record of its parent. *)
Theorem readConfig_inherits (s : ConfigState Config) (path : Path) :
  reachable s ->
  has_relative_path path && has_parent_path path = true ->
  readConfigFile (path_append path kConfigName) = None ->
  fst (readConfig path s) = fst (readConfig (parent_path_of path) s).
Proof.
  intros Hreach Hparent Hfile.
  pose proof (reachable_cache_sound _ _ _ _ _ _ s Hreach) as Hsound.
  rewrite !(readConfig_cascade Config defaultConfig kConfigName parseConfig
              readConfigFile hasClient) by assumption.
  rewrite (cascade_step Config defaultConfig kConfigName parseConfig
             readConfigFile path), Hparent.
  unfold overlay. now rewrite Hfile.
Qed.

Lemma applyConfigFile_errors (path : Path) (base : Config) (s : ConfigState Config) :
  (exists new,
     configErrors Config (snd (applyConfigFile path base s))
     = (configErrors Config s ++ new)%list /\
     Forall (fun entry : Path * string =>
               exists contents base',
                 readConfigFile (fst entry) = Some contents /\
                 snd (parseConfig contents base') = Some (snd entry)) new /\
     (hasClient = true -> new = [])) /\
  (hasClient = false ->
   published Config (snd (applyConfigFile path base s)) = published Config s).
Proof.
  unfold applyConfigFile.
  destruct (readConfigFile (path_append path kConfigName)) as [contents|] eqn:Hfile.
  - destruct (parseConfig contents base) as [result [e|]] eqn:Hparse;
      destruct hasClient; simpl; (split; [|try reflexivity; discriminate]).
    + exists []. rewrite app_nil_r. now repeat split.
    + exists [(path_append path kConfigName, e)]. repeat split; [|discriminate].
      constructor; [|constructor]. exists contents, base. simpl.
      now rewrite Hfile, Hparse.
    + exists []. rewrite app_nil_r. now repeat split.
    + exists []. rewrite app_nil_r. now repeat split.
  - simpl. split; [|reflexivity]. exists []. rewrite app_nil_r. now repeat split.
Qed.

Lemma readConfigRec_errors (rooted : bool) (names : list string) :
  forall s : ConfigState Config,
    (exists new,
       configErrors Config (snd (readConfigRec rooted names s))
       = (configErrors Config s ++ new)%list /\
       Forall (fun entry : Path * string =>
                 exists contents base',
                   readConfigFile (fst entry) = Some contents /\
                   snd (parseConfig contents base') = Some (snd entry)) new /\
       (hasClient = true -> new = [])) /\
    (hasClient = false ->
     published Config (snd (readConfigRec rooted names s)) = published Config s).
Proof.
  assert (Hnone : forall s : ConfigState Config,
             (exists new,
                 configErrors Config s = (configErrors Config s ++ new)%list /\
                 Forall (fun entry : Path * string =>
                           exists contents base',
                             readConfigFile (fst entry) = Some contents /\
                             snd (parseConfig contents base') = Some (snd entry)) new /\
                 (hasClient = true -> new = [])) /\
             (hasClient = false -> published Config s = published Config s)).
  { intros s. split; [|reflexivity]. exists []. rewrite app_nil_r. now repeat split. }
  induction names as [|n parent IH]; intros s.
  all: match goal with
       | |- context [readConfigRec ?ro ?names ?s0] =>
           destruct (configCache Config s0 !! (ro, names)) as [cached|] eqn:Hlook;
           [rewrite (readConfigRec_hit _ _ _ _ Hlook); apply Hnone
           |rewrite (readConfigRec_unfold_miss _ _ _ Hlook)]
       end.
  - pose proof (applyConfigFile_errors (rooted, []) defaultConfig s) as Happly.
    destruct (applyConfigFile (rooted, []) defaultConfig s) as [result s2].
    exact Happly.
  - assert (Hparent :
      let ps := if has_relative_path (rooted, n :: parent)
                   && has_parent_path (rooted, n :: parent)
                then readConfigRec rooted parent s else (defaultConfig, s) in
      (exists new,
          configErrors Config (snd ps) = (configErrors Config s ++ new)%list /\
          Forall (fun entry : Path * string =>
                    exists contents base',
                      readConfigFile (fst entry) = Some contents /\
                      snd (parseConfig contents base') = Some (snd entry)) new /\
          (hasClient = true -> new = [])) /\
      (hasClient = false -> published Config (snd ps) = published Config s)).
    { destruct (has_relative_path (rooted, n :: parent)
                && has_parent_path (rooted, n :: parent)); [apply IH|apply Hnone]. }
    destruct (if has_relative_path (rooted, n :: parent)
                 && has_parent_path (rooted, n :: parent)
              then readConfigRec rooted parent s else (defaultConfig, s))
      as [base s1].
    simpl in Hparent.
    pose proof (applyConfigFile_errors (rooted, n :: parent) base s1) as Happly.
    destruct (applyConfigFile (rooted, n :: parent) base s1) as [result s2].
    simpl in *.
    destruct Hparent as [(new1 & He1 & Hf1 & Hc1) Hp1].
    destruct Happly as [(new2 & He2 & Hf2 & Hc2) Hp2].
    split.
    + exists (new1 ++ new2)%list. repeat split.
      * now rewrite He2, He1, app_assoc.
      * apply Forall_app. now split.
      * intros Hclient. now rewrite Hc1, Hc2.
    + intros Hclient. now rewrite Hp2, Hp1.
Qed.

(** X16: a config query only adds to the list of config errors, and what
    it adds are parse errors of config files that it read; with a client
    attached it adds nothing (the errors go to the client as diagnostics),
    and without a client nothing is published. *)
Theorem readConfig_errors (path : Path) (s : ConfigState Config) :
  (exists new,
     configErrors Config (snd (readConfig path s))
     = (configErrors Config s ++ new)%list /\
     Forall (fun entry : Path * string =>
               exists contents base,
                 readConfigFile (fst entry) = Some contents /\
                 snd (parseConfig contents base) = Some (snd entry)) new /\
     (hasClient = true -> new = [])) /\
  (hasClient = false ->
   published Config (snd (readConfig path s)) = published Config s).
Proof. destruct path as [rooted names]. apply readConfigRec_errors. Qed.

End ConfigCacheProperties.

Section ModuleConfigProperties.

Context {P : Platform} (H : Host).
Variable Config : Type.
Variable defaultConfig : Config.
Variable kConfigName : string.
Variable parseConfig : string -> Config -> Config * option string.
Variable readConfigFile : Path -> option string.
Variable hasClient : bool.

Local Abbreviation getConfig :=
  (getConfig H Config defaultConfig kConfigName parseConfig readConfigFile hasClient).

(** X17: two modules whose real paths have the same parent directory get
    the same config record, and the query for the second one is answered
    from the cache: it changes nothing. *)
Theorem getConfig_same_directory (r : WorkspaceFileResolver P)
    (name name' realPath realPath' : string) (s : ConfigState Config) :
  resolveToRealPath r name = Some realPath ->
  resolveToRealPath r name' = Some realPath' ->
  has_relative_path (decompose H realPath) && has_parent_path (decompose H realPath) = true ->
  has_relative_path (decompose H realPath') && has_parent_path (decompose H realPath') = true ->
  parent_path_of (decompose H realPath') = parent_path_of (decompose H realPath) ->
  getConfig r name' (snd (getConfig r name s))
  = (fst (getConfig r name s), snd (getConfig r name s)).
Proof.
  intros Hreal Hreal' Hdir Hdir' Hsame. unfold getConfig.
  rewrite Hreal, Hreal'.
  apply andb_true_iff in Hdir as [Hrel Hpar].
  apply andb_true_iff in Hdir' as [Hrel' Hpar'].
  rewrite Hrel, Hpar, Hrel', Hpar', Hsame. simpl.
  destruct (parent_path_of (decompose H realPath)) as [rooted names].
  apply readConfigRec_again.
Qed.

End ModuleConfigProperties.

Lemma getConfig_same_directory_witness :
  let getConfig :=
    getConfig ExampleHost.host ExampleConfig.Config ExampleConfig.defaultConfig
      ExampleConfig.kConfigName ExampleConfig.parseConfig
      ExampleConfig.readFile false (Example.initial Example.posix None) in
  getConfig "/ws/sub/b.luau" (snd (getConfig "/ws/sub/a.luau" ExampleConfig.initial))
  = (fst (getConfig "/ws/sub/a.luau" ExampleConfig.initial),
     snd (getConfig "/ws/sub/a.luau" ExampleConfig.initial)).
Proof.
  apply (getConfig_same_directory ExampleHost.host ExampleConfig.Config
           ExampleConfig.defaultConfig ExampleConfig.kConfigName
           ExampleConfig.parseConfig ExampleConfig.readFile false
           (Example.initial Example.posix None)
           "/ws/sub/a.luau" "/ws/sub/b.luau" "/ws/sub/a.luau" "/ws/sub/b.luau");
    reflexivity.
Defined.

Lemma readConfig_stable_witness :
  let readConfig :=
    readConfig ExampleConfig.Config ExampleConfig.defaultConfig
      ExampleConfig.kConfigName ExampleConfig.parseConfig
      ExampleConfig.readFile false in
  fst (readConfig (true, ["sub"; "ws"])
         (snd (readConfig (true, ["other"; "ws"]) ExampleConfig.initial)))
  = fst (readConfig (true, ["sub"; "ws"]) ExampleConfig.initial).
Proof.
  apply (readConfig_stable ExampleConfig.Config ExampleConfig.defaultConfig
           ExampleConfig.kConfigName ExampleConfig.parseConfig
           ExampleConfig.readFile false).
  constructor.
Defined.

Lemma readConfig_inherits_witness :
  let readConfig :=
    readConfig ExampleConfig.Config ExampleConfig.defaultConfig
      ExampleConfig.kConfigName ExampleConfig.parseConfig
      ExampleConfig.readFile false in
  fst (readConfig (true, ["deep"; "sub"; "ws"]) ExampleConfig.initial)
  = fst (readConfig (true, ["sub"; "ws"]) ExampleConfig.initial).
Proof.
  apply (readConfig_inherits ExampleConfig.Config ExampleConfig.defaultConfig
           ExampleConfig.kConfigName ExampleConfig.parseConfig
           ExampleConfig.readFile false ExampleConfig.initial
           (true, ["deep"; "sub"; "ws"])).
  - constructor.
  - reflexivity.
  - reflexivity.
Defined.

(** ** Documents and sources *)

Section DocumentProperties.

Context {P : Platform} (H : Host).
Variable managedFiles : gmap string TextDocument.

Local Abbreviation getTextDocumentFromModuleName :=
  (getTextDocumentFromModuleName H managedFiles).
Local Abbreviation readSourceText := (readSourceText H managedFiles).
Local Abbreviation readSource := (readSource H managedFiles).
Local Abbreviation getOrCreateTextDocumentFromModuleName :=
  (getOrCreateTextDocumentFromModuleName H managedFiles).

(** A module that has a source has a real path. *)
Lemma readSource_real_path (r : WorkspaceFileResolver P) (name : string)
    (source : string * SourceCodeType) :
  readSource r name = Some source ->
  exists filePath,
    resolveToRealPath r name = Some filePath /\
    exists type, readSourceText r name filePath = Some (fst source) /\
                 source = (fst source, type).
Proof.
  unfold readSource, resolveToRealPath.
  destruct (isVirtualPath P name).
  - destruct (getSourceNodeFromVirtualPath r name) as [sourceNode|]; [|discriminate].
    destruct (getRealPathFromSourceNode r sourceNode) as [filePath|]; [|discriminate].
    destruct (readSourceText r name filePath) as [text|] eqn:Htext; [|discriminate].
    intros [= <-]. exists filePath. split; [reflexivity|]. simpl. eauto.
  - destruct (readSourceText r name name) as [text|] eqn:Htext; [|discriminate].
    intros [= <-]. exists name. split; [reflexivity|]. simpl. eauto.
Qed.

(** X18: the open document wins.  When the editor has a document open
    for a module that has a real path, the source of the module is the
    text of the document, whatever the file on disk holds. *)
Theorem readSource_open_document (r : WorkspaceFileResolver P) (name : string)
    (document : TextDocument) :
  getTextDocumentFromModuleName r name = Some document ->
  is_Some (resolveToRealPath r name) ->
  exists type, readSource r name = Some (getText document, type).
Proof.
  intros Hopen [filePath Hreal]. unfold readSource, resolveToRealPath in *.
  destruct (isVirtualPath P name).
  - destruct (getSourceNodeFromVirtualPath r name) as [sourceNode|]; [|discriminate].
    rewrite Hreal. unfold readSourceText. rewrite Hopen. eauto.
  - unfold readSourceText. rewrite Hopen. eauto.
Qed.

(** X19: whenever a module has a source, a document can be had for it,
    and its text is that source: the open document, not owned by the
    caller, or else a new document for the real path of the module, in
    language [luau] and at version 0, owned by the caller. *)
Theorem getOrCreateTextDocument_of_source (r : WorkspaceFileResolver P)
    (name source : string) (type : SourceCodeType) :
  readSource r name = Some (source, type) ->
  match getTextDocumentFromModuleName r name with
  | Some document =>
      getOrCreateTextDocumentFromModuleName r name = (Some document, false) /\
      getText document = source
  | None =>
      exists filePath,
        resolveToRealPath r name = Some filePath /\
        getOrCreateTextDocumentFromModuleName r name
        = (Some (MkTextDocument (Uri_file H filePath) "luau" 0 source), true)
  end.
Proof.
  intros Hsource.
  destruct (readSource_real_path r name _ Hsource)
    as (filePath & Hreal & type' & Htext & _).
  unfold getOrCreateTextDocumentFromModuleName.
  unfold readSourceText in Htext.
  destruct (getTextDocumentFromModuleName r name) as [document|].
  - split; [reflexivity|]. simpl in Htext. congruence.
  - exists filePath. split; [exact Hreal|]. now rewrite Hreal, Hsource.
Qed.

(** X20: a module name classified as virtual that maps to no script file
    has no source, is shown to people as it is and, unless it names an
    untitled document, has no document at all. *)
Theorem virtual_name_without_file (r : WorkspaceFileResolver P) (name : string) :
  isVirtualPath P name = true ->
  resolveToRealPath r name = None ->
  readSource r name = None /\
  getHumanReadableModuleName H r name = name /\
  (startsWith name "untitled:" = false ->
   getTextDocumentFromModuleName r name = None /\
   getOrCreateTextDocumentFromModuleName r name = (None, false)).
Proof.
  intros Hvirtual Hreal. split; [|split].
  - destruct (readSource r name) as [source|] eqn:Hsource; [|reflexivity].
    destruct (readSource_real_path r name _ Hsource) as (filePath & Hsome & _).
    congruence.
  - unfold getHumanReadableModuleName. now rewrite Hvirtual, Hreal.
  - intros Huntitled. split.
    + unfold getTextDocumentFromModuleName. now rewrite Huntitled, Hreal.
    + unfold getOrCreateTextDocumentFromModuleName, getTextDocumentFromModuleName.
      now rewrite Huntitled, Hreal.
Qed.

(** X21: a JSON file that is not open in the editor is read as a strict
    module returning its value, and a JSON file that cannot be converted
    has no source and gets no document. *)
Theorem readSource_json (r : WorkspaceFileResolver P) (name contents : string) :
  isVirtualPath P name = false ->
  getTextDocumentFromModuleName r name = None ->
  readFile H name = Some contents ->
  extension H name = ".json" ->
  match jsonToLuau H contents with
  | Some luau =>
      readSource r name
      = Some ("--!strict" +:+ String "010"%char "return " +:+ luau,
              sourceCodeTypeFromPath H name)
  | None =>
      readSource r name = None /\
      getOrCreateTextDocumentFromModuleName r name = (None, false)
  end.
Proof.
  intros Hreal Hclosed Hfile Hext.
  assert (Hsource : readSource r name
            = match jsonToLuau H contents with
              | Some luau =>
                  Some ("--!strict" +:+ String "010"%char "return " +:+ luau,
                        sourceCodeTypeFromPath H name)
              | None => None
              end).
  { unfold readSource, readSourceText. rewrite Hreal, Hclosed, Hfile, Hext. simpl.
    now destruct (jsonToLuau H contents). }
  destruct (jsonToLuau H contents) as [luau|]; [exact Hsource|].
  split; [exact Hsource|].
  unfold getOrCreateTextDocumentFromModuleName, resolveToRealPath.
  now rewrite Hclosed, Hreal, Hsource.
Qed.

End DocumentProperties.

Lemma readSource_open_document_witness :
  let r := updateSourceMap "scenarioA" (Example.initial Example.posix None) in
  exists type,
    readSource ExampleHost.host ExampleHost.managedFiles r "game/ReplicatedStorage"
    = Some ("return 2", type).
Proof.
  intros r.
  apply (readSource_open_document ExampleHost.host ExampleHost.managedFiles r
           "game/ReplicatedStorage"
           (MkTextDocument (MkUri "file" "file:///ws/src/shared/init.luau"
                                  "/ws/src/shared/init.luau")
                           "luau" 3 "return 2")).
  - vm_compute. reflexivity.
  - exists "/ws/src/shared/init.luau". vm_compute. reflexivity.
Defined.

Lemma getOrCreateTextDocument_of_source_witness :
  let r := updateSourceMap "scenarioA" (Example.initial Example.posix None) in
  exists filePath,
    resolveToRealPath r "game/ReplicatedStorage" = Some filePath /\
    getOrCreateTextDocumentFromModuleName ExampleHost.host ∅ r "game/ReplicatedStorage"
    = (Some (MkTextDocument (Uri_file ExampleHost.host filePath) "luau" 0 "return 1"),
       true).
Proof.
  intros r.
  assert (Hsource : readSource ExampleHost.host ∅ r "game/ReplicatedStorage"
                    = Some ("return 1", SourceCode_Module))
    by (vm_compute; reflexivity).
  exact (getOrCreateTextDocument_of_source ExampleHost.host ∅ r
           "game/ReplicatedStorage" "return 1" SourceCode_Module Hsource).
Defined.

Lemma virtual_name_without_file_witness :
  let r := updateSourceMap "scenarioA" (Example.initial Example.posix None) in
  readSource ExampleHost.host ExampleHost.managedFiles r "game" = None /\
  getHumanReadableModuleName ExampleHost.host r "game" = "game".
Proof.
  intros r.
  destruct (virtual_name_without_file ExampleHost.host ExampleHost.managedFiles r
              "game" eq_refl) as (Hsource & Hname & _).
  - vm_compute. reflexivity.
  - split; assumption.
Defined.

Lemma readSource_json_witness :
  readSource ExampleHost.host ∅ (Example.initial Example.posix None) "/ws/data.json"
  = Some ("--!strict" +:+ String "010"%char "return {1}", SourceCode_Module).
Proof.
  apply (readSource_json ExampleHost.host ∅ (Example.initial Example.posix None)
           "/ws/data.json" "[1]"); reflexivity.
Defined.

(** ** Remapping and returning *)

(** X22: remapping a context twice is remapping it once: none of the
    three shared containers is itself remapped. *)
Theorem mapContext_idempotent (context : string) :
  mapContext (mapContext context) = mapContext context.
Proof.
  destruct (String.eqb_spec context "game/Players/LocalPlayer/PlayerScripts")
    as [->|H1]; [reflexivity|].
  destruct (String.eqb_spec context "game/Players/LocalPlayer/PlayerGui")
    as [->|H2]; [reflexivity|].
  destruct (String.eqb_spec context "game/Players/LocalPlayer/StarterGear")
    as [->|H3]; [reflexivity|].
  now rewrite !(mapContext_other context H1 H2 H3).
Qed.

(** X23: with a context, and with every method call having a method
    name as the parser builds it, [resolveModule] never dereferences a
    null pointer.  It returns, except that a string require throws when
    [exists] throws; for every other expression, and for every expression
    on a platform where [exists] does not throw, it returns. *)
Theorem resolveModule_no_null_dereference (P : Platform)
    (r : WorkspaceFileResolver P) (c : Luau.ModuleInfo) (node : Luau.AstExpr) :
  (forall func args, node = Luau.AstExprCall func args true ->
     exists target f, func = Luau.AstExprIndexName target f) ->
  ((exists result, resolveModule r (Some c) node = Returns result) \/
   ((exists requiredString, node = Luau.AstExprConstantString requiredString) /\
    resolveModule r (Some c) node = FilesystemError)) /\
  ((forall p, fs_exists P p <> None) ->
   exists result, resolveModule r (Some c) node = Returns result).
Proof.
  intros Hself.
  assert (Hother : (forall requiredString,
                       node <> Luau.AstExprConstantString requiredString) ->
                   exists result, resolveModule r (Some c) node = Returns result).
  { destruct node as [s|g|e i|e i|func args self|]; simpl; intros Hstring.
    - now destruct (Hstring s).
    - destruct (String.eqb g "game"); [eauto|].
      destruct (String.eqb g "script"); [|eauto].
      destruct (resolveToVirtualPath r (Luau.name c)); eauto.
    - destruct (String.eqb i "Parent"); [|eauto].
      destruct (getParentPath P (Luau.name c)); eauto.
    - destruct i; eauto.
    - destruct self; [|eauto].
      destruct args as [|[index| | | | |] rest]; eauto.
      destruct (Hself func _ eq_refl) as (target & f & ->).
      repeat match goal with
             | |- context [if ?b then _ else _] => destruct b
             | |- context [match ?o with Some _ => _ | None => _ end] => destruct o
             end; eauto.
    - eauto. }
  destruct node as [s|g|e i|e i|func args self|];
    try (split; [left|intros _]; apply Hother; discriminate).
  split.
  - destruct (resolveModule_string_outcome P r (Some c) s) as [[name Hname]|Hthrow];
      [left|right]; eauto.
  - intros Hexists. simpl. unfold requireOverride.
    assert (Hfile : forall filePath,
               exists result, requireFile (P:=P) filePath = Returns result).
    { intros filePath. unfold requireFile.
      destruct (weakly_canonical P _); [|eauto].
      destruct (fs_exists P _) as [[|]|] eqn:Hstatus; eauto.
      now destruct (Hexists _ Hstatus). }
    destruct (client r) as [config|]; [|apply Hfile].
    destruct (require_fileAliases config !! s); [apply Hfile|].
    assert (Halias : exists aliased,
               resolveDirectoryAlias (P:=P) (require_directoryAliases config) s
                 (includeExtension_default P) = Returns aliased).
    { induction (require_directoryAliases config) as [|[alias path] rest IH];
        simpl; [eauto|].
      destruct (startsWith s alias); [|exact IH].
      destruct (includeExtension_default P && negb (has_extension P _)); [|eauto].
      destruct (fs_exists P _) as [[|]|] eqn:Hstatus; eauto.
      now destruct (Hexists _ Hstatus). }
    destruct Halias as [[aliasedPath|] ->]; apply Hfile.
Qed.

Lemma resolveModule_no_null_dereference_witness :
  exists result,
    resolveModule (Example.initial Example.posix None)
      (Some (moduleInfo "game/ReplicatedStorage"))
      (Luau.AstExprCall
         (Luau.AstExprIndexName (Luau.AstExprGlobal "script") "FindFirstAncestor")
         [Luau.AstExprConstantString "game"] true)
    = Returns result.
Proof.
  apply (resolveModule_no_null_dereference Example.posix).
  - intros func args [= <- _]. eauto.
  - intros p. discriminate.
Defined.

(** A string require that throws: the status of the file with the ending
    [.luau] cannot be read. *)
Example string_require_throws :
  resolveModule (Example.initial Example.unreadable None) None
    (Luau.AstExprConstantString "Modules/Foo")
  = FilesystemError.
Proof. vm_compute. reflexivity. Qed.
